(** * Resumail backend: the /analyzev2 batch-aggregation pipeline

    A shallow embedding of [server/index.js]: [chunkArray], [safeParseJson],
    the credit decrement, the per-batch analysis loop, [mergeReports] and the
    route handler [/analyzev2], then the other routes of the file, followed
    by the properties of the design document that concern them and by
    further properties of the code.

    Conventions.
    - A JavaScript string is a sequence of UTF-16 code units: [list N].
      [js "..."] turns a literal into such a sequence.
    - A JavaScript number is an IEEE 754 binary64 value: [spec_float] of the
      standard library, with precision 53 and maximal exponent 1024.
    - A plain object is an association list in insertion order.
    - The outside world is scripted. The text oracle and the [reports]
      table answer by scripts indexed by the number of calls made so far:
      the reply of the oracle, whether an insert fails, and the row as the
      database makes it (its id, its time stamp, its defaults). How the
      calls of one request on [profiles] go is given by a record; the table
      itself answers reads and writes as a map, one request at a time.
      Every run of the deterministic handler is described by some script.
    - The world carries a log of what was done to it (charge, oracle call,
      insert, merge round), which only the properties read.
    - A function that loops is defined with fuel and returns [option]:
      [None] means that the JavaScript does not return. *)

From Stdlib Require Import ZArith NArith List String Ascii Bool Lia SpecFloat.
From stdpp Require Import base option list gmap strings.

Set Warnings "-register-all".
Local Open Scope nat_scope.

(** ** JavaScript values *)

Abbreviation jsstring := (list N).

Definition ch (a : ascii) : N := N_of_ascii a.

Definition js (s : string) : jsstring := map N_of_ascii (list_ascii_of_string s).

Abbreviation number := spec_float.

Definition prec : Z := 53.
Definition emax : Z := 1024.

(** The number an array length denotes: [S754_finite s m e] stands for
    (-1)^s * m * 2^e, so mantissa [n] and exponent 0 is exactly [n]. *)
Definition number_of_nat (n : nat) : number :=
  match n with
  | O => S754_zero false
  | S _ => S754_finite false (Pos.of_nat n) 0
  end.

Inductive value : Type :=
| VUndefined
| VNull
| VBool (b : bool)
| VNum (f : number)
| VStr (s : jsstring)
| VArr (elems : list value)
| VObj (props : list (jsstring * value)).

(** ToBoolean: what [!x] tests. *)
Definition truthy (v : value) : bool :=
  match v with
  | VUndefined | VNull => false
  | VBool b => b
  | VNum (S754_zero _) | VNum S754_nan => false
  | VNum _ => true
  | VStr [] => false
  | VStr _ => true
  | VArr _ | VObj _ => true
  end.

(** [o.k] on a plain object: the own property, or [undefined]. *)
Fixpoint get_prop (k : jsstring) (props : list (jsstring * value)) : value :=
  match props with
  | [] => VUndefined
  | (k', v) :: rest => if bool_decide (k = k') then v else get_prop k rest
  end.

Fixpoint has_prop (k : jsstring) (props : list (jsstring * value)) : bool :=
  match props with
  | [] => false
  | (k', _) :: rest => bool_decide (k = k') || has_prop k rest
  end.

(** [o.k = v] on a plain object: an existing property keeps its position,
    a new one is appended. *)
Fixpoint set_prop (k : jsstring) (v : value) (props : list (jsstring * value))
  : list (jsstring * value) :=
  match props with
  | [] => [(k, v)]
  | (k', v') :: rest =>
      if bool_decide (k = k') then (k, v) :: rest else (k', v') :: set_prop k v rest
  end.

(** [arr.slice(i, j)] and [str.slice(i, j)] for [0 <= i], [0 <= j]: the
    bounds are clamped to the length. *)
Definition slice {A} (arr : list A) (i j : nat) : list A := take (j - i) (drop i arr).

(** [arr[i]]: [undefined] out of range. *)
Definition index (arr : list value) (i : nat) : value := default VUndefined (arr !! i).

(** ** [chunkArray] (index.js, lines 151-157 and 571-576)

    [for (let i = 0; i < arr.length; i += size) out.push(arr.slice(i, i + size))].
    One unit of fuel per iteration; with [size = 0] and a non-empty array
    the loop never ends. *)
Fixpoint chunk_loop {A} (fuel : nat) (arr : list A) (size i : nat) (out : list (list A))
  : option (list (list A)) :=
  if i <? length arr then
    match fuel with
    | O => None
    | S fuel' => chunk_loop fuel' arr size (i + size) (out ++ [slice arr i (i + size)])
    end
  else Some out.

Definition chunkArray {A} (arr : list A) (size : nat) : option (list (list A)) :=
  chunk_loop (length arr) arr size 0 [].

(** ** [safeParseJson] (index.js, lines 503-523) *)

Definition LBRACE : N := Eval cbv in ch "{".
Definition RBRACE : N := Eval cbv in ch "}".

(** [str.match(/\{[\s\S]*\}/m)]: the leftmost "{" that has a "}" after it,
    up to the last "}" of the text. *)
Fixpoint from_first_lbrace (s : jsstring) : option jsstring :=
  match s with
  | [] => None
  | c :: rest => if N.eqb c LBRACE then Some s else from_first_lbrace rest
  end.

Fixpoint upto_last_rbrace (s : jsstring) : option jsstring :=
  match s with
  | [] => None
  | c :: rest =>
      match upto_last_rbrace rest with
      | Some p => Some (c :: p)
      | None => if N.eqb c RBRACE then Some [c] else None
      end
  end.

Definition match_braces (str : jsstring) : option jsstring :=
  from_first_lbrace str ≫= upto_last_rbrace.

Definition k_total_emails : jsstring := Eval cbv in js "total_emails".
Definition k_classification : jsstring := Eval cbv in js "classification".
Definition k_highlights : jsstring := Eval cbv in js "highlights".
Definition k_summary : jsstring := Eval cbv in js "summary".
Definition k_positive : jsstring := Eval cbv in js "positive".
Definition k_negative : jsstring := Eval cbv in js "negative".
Definition k_neutral : jsstring := Eval cbv in js "neutral".
Definition k_other : jsstring := Eval cbv in js "other".

Definition zero : value := VNum (S754_zero false).

(** [{ positive:0, negative:0, neutral:0, other:0 }] *)
Definition zero_classification : value :=
  VObj [(k_positive, zero); (k_negative, zero); (k_neutral, zero); (k_other, zero)].

(** [if (!parsed.k) parsed.k = dflt;] *)
Definition fill (k : jsstring) (dflt : value) (parsed : list (jsstring * value))
  : list (jsstring * value) :=
  if truthy (get_prop k parsed) then parsed else set_prop k dflt parsed.

(** Lines 508-511. *)
Definition fill_defaults (parsed : list (jsstring * value)) (fallbackTotal : nat)
  : list (jsstring * value) :=
  let parsed := fill k_total_emails (VNum (number_of_nat fallbackTotal)) parsed in
  let parsed := fill k_classification zero_classification parsed in
  let parsed := fill k_highlights (VArr []) parsed in
  let parsed := fill k_summary (VStr []) parsed in
  parsed.

(** The object of the [catch] block, lines 514-520. *)
Definition fallback_result (str : jsstring) (fallbackTotal : nat) : list (jsstring * value) :=
  [(k_total_emails, VNum (number_of_nat fallbackTotal));
   (k_classification, zero_classification);
   (k_highlights, VArr []);
   (k_summary, VStr (slice str 0 1000))].

Section Repair.

(** [JSON.parse]: [None] when it throws a SyntaxError. *)
Variable JSON_parse : jsstring -> option value.

(** Both branches return a plain object, given here by its properties.
    The [try] block ends in [return parsed]; any exception lands in the
    [catch] block. The text handed to [JSON.parse] starts with "{", so
    what it returns is a plain object; a primitive or [null] would raise a
    TypeError at line 508 (the module is in strict mode) and land in the
    [catch] block too. Line 522 is never reached. Both callers pass an
    array length or the literal 0 as [fallbackTotal]. *)
Definition safeParseJson (str : jsstring) (fallbackTotal : nat) : list (jsstring * value) :=
  match match_braces str with
  | None => fallback_result str fallbackTotal
  | Some m0 =>
      match JSON_parse m0 with
      | Some (VObj parsed) => fill_defaults parsed fallbackTotal
      | Some _ => fallback_result str fallbackTotal
      | None => fallback_result str fallbackTotal
      end
  end.

End Repair.

(** ** A model of [JSON.parse] (ECMA-404 grammar)

    The properties below hold for every behaviour of [JSON.parse]; this
    executable parser is what the concrete runs use. *)
Module Json.

Local Open Scope N_scope.

(** The double quote. *)
Definition QUOTE : N := 34.

Definition is_ws (c : N) : bool :=
  (c =? 9) || (c =? 10) || (c =? 13) || (c =? 32).

Fixpoint skip_ws (s : jsstring) : jsstring :=
  match s with
  | c :: rest => if is_ws c then skip_ws rest else s
  | [] => []
  end.

Definition is_digit (c : N) : bool := (48 <=? c) && (c <=? 57).

Definition hex_digit (c : N) : option N :=
  if is_digit c then Some (c - 48)
  else if (65 <=? c) && (c <=? 70) then Some (c - 55)
  else if (97 <=? c) && (c <=? 102) then Some (c - 87)
  else None.

(** The character after a backslash, [u] apart. *)
Definition simple_escape (c : N) : option N :=
  if c =? QUOTE then Some QUOTE
  else if c =? ch "\" then Some (ch "\")
  else if c =? ch "/" then Some (ch "/")
  else if c =? ch "b" then Some 8
  else if c =? ch "f" then Some 12
  else if c =? ch "n" then Some 10
  else if c =? ch "r" then Some 13
  else if c =? ch "t" then Some 9
  else None.

(** The characters of a string after its opening quote, and what follows
    the closing quote. *)
Fixpoint parse_chars (s acc : jsstring) : option (jsstring * jsstring) :=
  match s with
  | [] => None
  | c :: rest =>
      if c =? QUOTE then Some (acc, rest)
      else if c =? ch "\" then
        match rest with
        | [] => None
        | e :: rest1 =>
            if e =? ch "u" then
              match rest1 with
              | h1 :: h2 :: h3 :: h4 :: rest2 =>
                  match hex_digit h1, hex_digit h2, hex_digit h3, hex_digit h4 with
                  | Some d1, Some d2, Some d3, Some d4 =>
                      parse_chars rest2 (acc ++ [((d1 * 16 + d2) * 16 + d3) * 16 + d4])
                  | _, _, _, _ => None
                  end
              | _ => None
              end
            else
              match simple_escape e with
              | Some x => parse_chars rest1 (acc ++ [x])
              | None => None
              end
        end
      else if c <? 32 then None
      else parse_chars rest (acc ++ [c])
  end.

(** A maximal run of digits: its value, its length, and the rest. *)
Fixpoint digits (s : jsstring) (val : Z) (len : nat) : Z * nat * jsstring :=
  match s with
  | c :: rest =>
      if is_digit c then digits rest (val * 10 + Z.of_N (c - 48))%Z (S len)
      else (val, len, s)
  | [] => (val, len, s)
  end.

(** The binary64 value nearest to [m * 10^e10] (ties to even), [m >= 0]. *)
Definition decimal_to_number (neg : bool) (m e10 : Z) : number :=
  match m with
  | Zpos p =>
      if (0 <=? e10)%Z then binary_normalize prec emax (if neg then - (m * 10 ^ e10) else m * 10 ^ e10)%Z 0 false
      else match (10 ^ (- e10))%Z with
           | Zpos q => SFdiv prec emax (S754_finite neg p 0) (S754_finite false q 0)
           | _ => S754_nan
           end
  | _ => S754_zero neg
  end.

(** An optional minus sign, an integer part without a leading zero, an
    optional fraction and an optional exponent. *)
Definition parse_number (s : jsstring) : option (number * jsstring) :=
  let '(neg, s1) :=
    match s with
    | c :: rest => if c =? ch "-" then (true, rest) else (false, s)
    | [] => (false, s)
    end in
  '(int, s2) ←
    match s1 with
    | c :: rest =>
        if c =? ch "0" then Some (0%Z, rest)
        else if is_digit c then
          let '(v, _, r) := digits s1 0%Z 0%nat in Some (v, r)
        else None
    | [] => None
    end;
  '(mant, fraclen, s3) ←
    match s2 with
    | c :: rest =>
        if c =? ch "." then
          let '(v, len, r) := digits rest int 0%nat in
          match len with O => None | _ => Some (v, len, r) end
        else Some (int, O, s2)
    | [] => Some (int, O, s2)
    end;
  '(exp, s4) ←
    match s3 with
    | c :: rest =>
        if (c =? ch "e") || (c =? ch "E") then
          let '(eneg, rest1) :=
            match rest with
            | d :: rest' =>
                if d =? ch "-" then (true, rest')
                else if d =? ch "+" then (false, rest')
                else (false, rest)
            | [] => (false, rest)
            end in
          let '(v, len, r) := digits rest1 0%Z 0%nat in
          match len with
          | O => None
          | _ => Some (if eneg then (- v)%Z else v, r)
          end
        else Some (0%Z, s3)
    | [] => Some (0%Z, s3)
    end;
  Some (decimal_to_number neg mant (exp - Z.of_nat fraclen), s4).

(** [s] without the prefix [p], when it has it. *)
Fixpoint strip_prefix (p s : jsstring) : option jsstring :=
  match p, s with
  | [], _ => Some s
  | a :: p', b :: s' => if a =? b then strip_prefix p' s' else None
  | _ :: _, [] => None
  end.

Definition lit_true : jsstring := Eval cbv in js "true".
Definition lit_false : jsstring := Eval cbv in js "false".
Definition lit_null : jsstring := Eval cbv in js "null".

(** Recursive descent; every call consumes fuel, and a text of length [n]
    needs less than [n + 1]. [parse_value] expects no leading white space. *)
Fixpoint parse_value (fuel : nat) (s : jsstring) {struct fuel} : option (value * jsstring) :=
  match fuel with
  | O => None
  | S fuel' =>
      match s with
      | [] => None
      | c :: rest =>
          if c =? ch "{" then
            match skip_ws rest with
            | d :: rest1 =>
                if d =? ch "}" then Some (VObj [], rest1)
                else parse_members fuel' (d :: rest1) []
            | [] => None
            end
          else if c =? ch "[" then
            match skip_ws rest with
            | d :: rest1 =>
                if d =? ch "]" then Some (VArr [], rest1)
                else parse_elements fuel' (d :: rest1) []
            | [] => None
            end
          else if c =? QUOTE then
            '(str, r) ← parse_chars rest []; Some (VStr str, r)
          else if (c =? ch "-") || is_digit c then
            '(f, r) ← parse_number s; Some (VNum f, r)
          else
            match strip_prefix lit_true s, strip_prefix lit_false s, strip_prefix lit_null s with
            | Some r, _, _ => Some (VBool true, r)
            | _, Some r, _ => Some (VBool false, r)
            | _, _, Some r => Some (VNull, r)
            | _, _, _ => None
            end
      end
  end
(** [s] starts at the first character of a member; [acc] holds the
    members read so far. A repeated key keeps its first position and takes
    the last value. *)
with parse_members (fuel : nat) (s : jsstring) (acc : list (jsstring * value)) {struct fuel}
  : option (value * jsstring) :=
  match fuel with
  | O => None
  | S fuel' =>
      match s with
      | c :: rest =>
          if c =? QUOTE then
            '(key, r1) ← parse_chars rest [];
            match skip_ws r1 with
            | d :: r2 =>
                if d =? ch ":" then
                  '(v, r3) ← parse_value fuel' (skip_ws r2);
                  let acc' := set_prop key v acc in
                  match skip_ws r3 with
                  | e :: r4 =>
                      if e =? ch "," then parse_members fuel' (skip_ws r4) acc'
                      else if e =? ch "}" then Some (VObj acc', r4)
                      else None
                  | [] => None
                  end
                else None
            | [] => None
            end
          else None
      | [] => None
      end
  end
with parse_elements (fuel : nat) (s : jsstring) (acc : list value) {struct fuel}
  : option (value * jsstring) :=
  match fuel with
  | O => None
  | S fuel' =>
      '(v, r1) ← parse_value fuel' s;
      let acc' := acc ++ [v] in
      match skip_ws r1 with
      | e :: r2 =>
          if e =? ch "," then parse_elements fuel' (skip_ws r2) acc'
          else if e =? ch "]" then Some (VArr acc', r2)
          else None
      | [] => None
      end
  end.

(** [JSON.parse(text)]: one value between optional white space. *)
Definition parse (text : jsstring) : option value :=
  '(v, rest) ← parse_value (S (length text)) (skip_ws text);
  match skip_ws rest with
  | [] => Some v
  | _ :: _ => None
  end.

End Json.


(** ** The outside world *)

(** A record of the request body: sender, subject, body text. *)
Record email := { from : jsstring; subject : jsstring; body : jsstring }.

(** A row of the [reports] table, as the database hands it back: a column
    may hold any value, [null] included. [user_id] is the key that the
    routes select on. *)
Record report_row := {
  row_id : value;
  row_user_id : string;
  row_created_at : value;
  row_total_emails : value;
  row_report_text : value;
  row_summary : value;
  row_classification : value;
  row_highlights : value;
  row_sentiment_overall : value;
  row_mini_report_ids : value;
  row_is_final : value }.

(** What the handler does to the world, in order. [RoundStarted] marks an
    entry into the [for] loop of [mergeReports]. *)
Inductive event :=
| Charged (user : string) (amount : Z)
| OracleCalled
| InsertTried (ok : bool)
| RoundStarted.

Record World := {
  profiles : gmap string Z;
  reports : list report_row;
  log : list event }.

Definition is_charge (e : event) : bool :=
  match e with Charged _ _ => true | _ => false end.
Definition is_oracle_call (e : event) : bool :=
  match e with OracleCalled => true | _ => false end.
Definition is_insert (e : event) : bool :=
  match e with InsertTried _ => true | _ => false end.
Definition is_round (e : event) : bool :=
  match e with RoundStarted => true | _ => false end.

Fixpoint count (p : event -> bool) (l : list event) : nat :=
  match l with
  | [] => 0
  | e :: rest => (if p e then 1 else 0) + count p rest
  end.

Definition oracle_calls (w : World) : nat := count is_oracle_call (log w).
Definition insert_calls (w : World) : nat := count is_insert (log w).
Definition merge_rounds (w : World) : nat := count is_round (log w).

Definition log_event (e : event) (w : World) : World :=
  {| profiles := profiles w; reports := reports w; log := log w ++ [e] |}.

(** What [openai.chat.completions.create] does: it throws, or it returns a
    completion whose first choice has a content or not. *)
Inductive oracle_reply :=
| Throws
| Content (c : option jsstring).

(** [completion.choices?.[0]?.message?.content || ""] *)
Definition content_or_empty (c : option jsstring) : jsstring := default [] c.

(** What the stored procedure hands back as [data]. *)
Inductive rpc_data :=
| DNumber (n : Z)
| DRows (credits : list Z)
| DNull.

Inductive rpc_result :=
| RpcError
| RpcData (d : rpc_data).

(** [typeof rpcData === "number" ? rpcData : rpcData?.[0]?.credits ?? null] *)
Definition newBalance_of (rpcData : rpc_data) : option Z :=
  match rpcData with
  | DNumber n => Some n
  | DRows rows => head rows
  | DNull => None
  end.

Definition set_credits (user : string) (credits : Z) (w : World) : World :=
  {| profiles := <[user := credits]> (profiles w); reports := reports w; log := log w |}.

(** Modelled from the spec: the stored procedure [decrement_credits] of the
    database, which is not part of the server sources. Section 4.4: a single
    atomic decrement with floor check, "decrement only if balance >= amount,
    return new balance or a sentinel meaning rejected"; the rejection
    (insufficient balance, or no such account) reaches the handler as the
    [error] of the call. *)
Definition decrement_credits (p_user_id : string) (p_amount : Z) (w : World)
  : rpc_result * World :=
  match profiles w !! p_user_id with
  | Some balance =>
      if (p_amount <=? balance)%Z
      then (RpcData (DNumber (balance - p_amount)),
            log_event (Charged p_user_id p_amount) (set_credits p_user_id (balance - p_amount) w))
      else (RpcError, w)
  | None => (RpcError, w)
  end.

(** How [supabase.rpc("decrement_credits", ...)] goes: the call throws; or
    it comes back with an [error] of its own, the procedure not having run
    (it is missing, or cannot be reached); or the procedure runs and what it
    returns comes back. *)
Inductive rpc_outcome :=
| RpcThrows
| RpcFails
| RpcRuns.

(** How the calls of one request on the [profiles] table go. A select or an
    update that comes back with an error has no [data] and leaves the table
    as it was. *)
Record ledger_calls := {
  rpc_goes : rpc_outcome;
  (* the select and the update of the by-hand path, lines 552-566 *)
  byhand_select_fails : bool;
  byhand_update_fails : bool;
  (* the select of the balance before the answer, lines 725-729 *)
  final_select_fails : bool }.

(** The answers of the handler. *)
Inductive response :=
| BadRequest                (* 400 "Missing userId or emails" *)
| NotConfigured             (* 500 "Supabase not configured" *)
| NotEnoughCredits          (* 402 "Not enough credits" *)
| UserNotFound              (* 404 "User not found" *)
| FinalSaveFailed           (* 500 "Failed to save final report" *)
| AnalysisFailed            (* 500 "IA analysis failed", the outer catch *)
| Ok (creditsLeft : option Z) (totalEmails : nat) (mini_report_ids : list value)
     (finalReportId : value) (finalReport : value).

(** [v.k]: [None] is the TypeError of a read on [undefined] or [null]. *)
Definition member (v : value) (k : jsstring) : option value :=
  match v with
  | VUndefined | VNull => None
  | VObj props => Some (get_prop k props)
  | _ => Some VUndefined
  end.

(** One call of [openai.chat.completions.create]: the reply of the script,
    and the call on the log. The prompt is a function of the batch or of the
    group at hand; the script stands for whatever the oracle makes of it. *)
Definition ask_oracle (oracle : nat -> oracle_reply) (w : World) : oracle_reply * World :=
  (oracle (oracle_calls w), log_event OracleCalled w).

(** ** [mergeReports] (index.js, lines 653-695)

    A closure of the handler: it captures [MERGE_BATCH_SIZE], which the
    handler sets to 5. *)
Section Reducer.

Variable JSON_parse : jsstring -> option value.
(** The reply to the k-th call of the oracle. *)
Variable oracle : nat -> oracle_reply.
Variable MERGE_BATCH_SIZE : nat.

(** The body of the loop, lines 658-691. *)
Definition merge_group (group : list value) (w : World) : value * World :=
  let '(reply, w1) := ask_oracle oracle w in
  match reply with
  | Content c => (VObj (safeParseJson JSON_parse (content_or_empty c) 0), w1)
  | Throws => (index group 0, w1)
  end.

Fixpoint merge_groups (groups : list (list value)) (merged : list value) (w : World)
  : list value * World :=
  match groups with
  | [] => (merged, w)
  | group :: rest =>
      let '(v, w1) := merge_group group w in
      merge_groups rest (merged ++ [v]) w1
  end.

(** One unit of fuel per call. *)
Fixpoint mergeReports_fuel (fuel : nat) (jsonList : list value) (w : World)
  : option (value * World) :=
  match fuel with
  | O => None
  | S fuel' =>
      if length jsonList =? 1 then Some (index jsonList 0, w)
      else
        groups ← chunkArray jsonList MERGE_BATCH_SIZE;
        let '(merged, w1) := merge_groups groups [] (log_event RoundStarted w) in
        if 1 <? length merged then mergeReports_fuel fuel' merged w1
        else Some (index merged 0, w1)
  end.

Definition mergeReports (jsonList : list value) (w : World) : option (value * World) :=
  mergeReports_fuel (S (length jsonList)) jsonList w.

End Reducer.

Definition BATCH_SIZE : nat := 50.
Definition MERGE_BATCH_SIZE : nat := 5.

(** ** The route handler [/analyzev2] (index.js, lines 525-744) *)
Section Pipeline.

Variable JSON_parse : jsstring -> option value.
(** The reply to the k-th call of the oracle. *)
Variable oracle : nat -> oracle_reply.
(** Whether the k-th insert into [reports] comes back with an error. *)
Variable insert_fails : nat -> bool.
(** The row of the k-th insert as the database makes it, before the columns
    of the insert are set: its [id], its [created_at], and whatever it puts
    in a column that the insert leaves out. *)
Variable db_row : nat -> report_row.
(** How the calls on [profiles] go. *)
Variable calls : ledger_calls.
(** Whether the [supabase] client exists. *)
Variable supabase_configured : bool.
(** [Number(process.env.CREDITS_PER_EMAIL || "1")] *)
Variable CREDITS_PER_EMAIL : Z.

(** [supabase.from("reports").insert([columns]).select("*").single()]: the
    row that was inserted, as the database hands it back, or an error. *)
Definition insert_report (columns : report_row -> report_row) (w : World)
  : option report_row * World :=
  if insert_fails (insert_calls w) then (None, log_event (InsertTried false) w)
  else
    let row := columns (db_row (insert_calls w)) in
    (Some row,
     log_event (InsertTried true)
       {| profiles := profiles w; reports := reports w ++ [row]; log := log w |}).

(** Step 1, lines 538-568. Left: the handler answers and stops. Right:
    [newBalance].

    - The call returns: an [error], whatever it is, is answered 402 (line
      545); otherwise [newBalance] is read off the data.
    - The call throws: by hand. A select that fails, or finds no profile, is
      answered 404; a balance below the amount, 402. The result of the
      update is read without a look at its error (line 567): when the update
      failed, [updated] is [null], the read throws, and the outer [catch]
      of the handler answers "IA analysis failed". *)
Definition reserve (userId : string) (neededCredits : Z) (w : World)
  : (response + option Z) * World :=
  match rpc_goes calls with
  | RpcRuns =>
      match decrement_credits userId neededCredits w with
      | (RpcError, w') => (inl NotEnoughCredits, w')
      | (RpcData rpcData, w') => (inr (newBalance_of rpcData), w')
      end
  | RpcFails => (inl NotEnoughCredits, w)
  | RpcThrows =>
      if byhand_select_fails calls then (inl UserNotFound, w)
      else
        match profiles w !! userId with
        | None => (inl UserNotFound, w)
        | Some credits =>
            if (credits <? neededCredits)%Z then (inl NotEnoughCredits, w)
            else if byhand_update_fails calls then (inl AnalysisFailed, w)
            else
              let w' := log_event (Charged userId neededCredits)
                          (set_credits userId (credits - neededCredits) w) in
              (inr (Some (credits - neededCredits)%Z), w')
        end
  end.

(** The columns of a mini-report, lines 629-638, set on the row of the
    database. *)
Definition mini_row (userId : string) (parsed : list (jsstring * value))
    (row : report_row) : report_row :=
  {| row_id := row_id row;
     row_user_id := userId;
     row_created_at := row_created_at row;
     row_total_emails := get_prop k_total_emails parsed;
     row_report_text := get_prop k_summary parsed;
     row_summary := get_prop k_summary parsed;
     row_classification := get_prop k_classification parsed;
     row_highlights := get_prop k_highlights parsed;
     row_sentiment_overall := get_prop k_classification parsed;
     row_mini_report_ids := row_mini_report_ids row;
     row_is_final := VBool false |}.

(** Step 3, the body of the loop, lines 584-649. *)
Definition analyze_batch (userId : string) (batch : list email)
    (acc : list value * list value) (w : World) : (list value * list value) * World :=
  let '(miniReportIds, partialJsons) := acc in
  let '(reply, w1) := ask_oracle oracle w in
  let aiRaw := match reply with Content c => content_or_empty c | Throws => [] end in
  let parsed := safeParseJson JSON_parse aiRaw (length batch) in
  let '(insertedMini, w2) := insert_report (mini_row userId parsed) w1 in
  match insertedMini with
  | Some row => ((miniReportIds ++ [row_id row], partialJsons ++ [VObj parsed]), w2)
  | None => ((miniReportIds, partialJsons), w2)
  end.

Fixpoint analyze_batches (userId : string) (batches : list (list email))
    (acc : list value * list value) (w : World) : (list value * list value) * World :=
  match batches with
  | [] => (acc, w)
  | batch :: rest =>
      let '(acc', w') := analyze_batch userId batch acc w in
      analyze_batches userId rest acc' w'
  end.

(** The columns of the final report, lines 703-713, set on the row of the
    database. *)
Definition final_columns (userId : string)
    (total_emails summary classification highlights : value) (miniReportIds : list value)
    (row : report_row) : report_row :=
  {| row_id := row_id row;
     row_user_id := userId;
     row_created_at := row_created_at row;
     row_total_emails := total_emails;
     row_report_text := summary;
     row_summary := summary;
     row_classification := classification;
     row_highlights := highlights;
     row_sentiment_overall := classification;
     row_mini_report_ids := VArr miniReportIds;
     row_is_final := VBool true |}.

(** The reads of [finalJson] in step 5; [None] when they throw. *)
Definition final_row (userId : string) (finalJson : value) (miniReportIds : list value)
  : option (report_row -> report_row) :=
  total_emails ← member finalJson k_total_emails;
  summary ← member finalJson k_summary;
  classification ← member finalJson k_classification;
  highlights ← member finalJson k_highlights;
  Some (final_columns userId total_emails summary classification highlights miniReportIds).

(** [profileAfter?.credits ?? newBalance], lines 725-734. *)
Definition creditsLeft_of (userId : string) (newBalance : option Z) (w : World) : option Z :=
  if final_select_fails calls then newBalance
  else
    match profiles w !! userId with
    | Some credits => Some credits
    | None => newBalance
    end.

(** [None]: the handler never answers. *)
Definition analyzev2 (userId : string) (emails : list email) (w : World)
  : option (response * World) :=
  if bool_decide (userId = EmptyString) || bool_decide (emails = []) then Some (BadRequest, w)
  else if negb supabase_configured then Some (NotConfigured, w)
  else
    let neededCredits := (Z.of_nat (length emails) * CREDITS_PER_EMAIL)%Z in
    match reserve userId neededCredits w with
    | (inl answer, w1) => Some (answer, w1)
    | (inr newBalance, w1) =>
        batches ← chunkArray emails BATCH_SIZE;
        let '((miniReportIds, partialJsons), w2) :=
          analyze_batches userId batches ([], []) w1 in
        '(finalJson, w3) ← mergeReports JSON_parse oracle MERGE_BATCH_SIZE partialJsons w2;
        match final_row userId finalJson miniReportIds with
        | None => Some (AnalysisFailed, w3)
        | Some columns =>
            let '(insertedFinal, w4) := insert_report columns w3 in
            match insertedFinal with
            | None => Some (FinalSaveFailed, w4)
            | Some row =>
                Some (Ok (creditsLeft_of userId newBalance w4) (length emails)
                         miniReportIds (row_id row) finalJson, w4)
            end
        end
    end.

End Pipeline.

(** ** Scripts for concrete runs *)

(** The oracle that always fails. *)
Definition oracle_down : nat -> oracle_reply := fun _ => Throws.

(** The oracle that answers by a list, and fails after its end. *)
Definition oracle_script (replies : list oracle_reply) : nat -> oracle_reply :=
  fun k => default Throws (replies !! k).

Definition storage_up : nat -> bool := fun _ => false.
Definition storage_down : nat -> bool := fun _ => true.

(** The table fails on exactly the k-th insert. *)
Definition storage_fails_at (k : nat) : nat -> bool := fun i => i =? k.

(** A database that gives its k-th insert the id 100 + k and the time k,
    and leaves [null] in every other column. *)
Definition rows_from_100 : nat -> report_row := fun k =>
  {| row_id := VNum (number_of_nat (100 + k));
     row_user_id := EmptyString;
     row_created_at := VNum (number_of_nat k);
     row_total_emails := VNull;
     row_report_text := VNull;
     row_summary := VNull;
     row_classification := VNull;
     row_highlights := VNull;
     row_sentiment_overall := VNull;
     row_mini_report_ids := VNull;
     row_is_final := VNull |}.

(** A database that gives every insert the same id. *)
Definition rows_all_7 : nat -> report_row := fun k =>
  {| row_id := VNum (number_of_nat 7);
     row_user_id := EmptyString;
     row_created_at := VNull;
     row_total_emails := VNull;
     row_report_text := VNull;
     row_summary := VNull;
     row_classification := VNull;
     row_highlights := VNull;
     row_sentiment_overall := VNull;
     row_mini_report_ids := VNull;
     row_is_final := VNull |}.

(** The stored procedure runs and every select answers. *)
Definition by_procedure : ledger_calls :=
  {| rpc_goes := RpcRuns; byhand_select_fails := false;
     byhand_update_fails := false; final_select_fails := false |}.

(** The call of the procedure throws, and the table answers by hand. *)
Definition by_hand : ledger_calls :=
  {| rpc_goes := RpcThrows; byhand_select_fails := false;
     byhand_update_fails := false; final_select_fails := false |}.

(** The procedure is missing: the call comes back with an error. *)
Definition procedure_missing : ledger_calls :=
  {| rpc_goes := RpcFails; byhand_select_fails := false;
     byhand_update_fails := false; final_select_fails := false |}.

(** The call throws and the update by hand fails. *)
Definition update_refused : ledger_calls :=
  {| rpc_goes := RpcThrows; byhand_select_fails := false;
     byhand_update_fails := true; final_select_fails := false |}.

Definition world_of (balances : list (string * Z)) : World :=
  {| profiles := list_to_map balances; reports := []; log := [] |}.

(** A literal with ['] in the place of the double quote. *)
Definition jq (s : string) : jsstring :=
  map (fun c => if N.eqb c 39 then Json.QUOTE else c) (js s).

Definition an_email : email := {| from := js "a@b.c"; subject := js "hi"; body := js "hello" |}.

(** ** Well-formed analysis results (section 3 of the design document) *)

(** A number that is a non-negative integer. *)
Definition is_count (v : value) : bool :=
  match v with
  | VNum (S754_zero _) => true
  | VNum (S754_finite false m e) => (0 <=? e)%Z || (Z.land (Zpos m) (Z.ones (- e)) =? 0)%Z
  | _ => false
  end.

(** An object that maps the four categories to counts. *)
Definition is_classification (v : value) : bool :=
  match v with
  | VObj c =>
      is_count (get_prop k_positive c) && is_count (get_prop k_negative c)
      && is_count (get_prop k_neutral c) && is_count (get_prop k_other c)
  | _ => false
  end.

Definition is_sequence (v : value) : bool :=
  match v with VArr _ => true | _ => false end.

Definition is_text (v : value) : bool :=
  match v with VStr _ => true | _ => false end.

Definition has_all_fields (r : list (jsstring * value)) : bool :=
  has_prop k_total_emails r && has_prop k_classification r
  && has_prop k_highlights r && has_prop k_summary r.

Definition well_typed (r : list (jsstring * value)) : bool :=
  is_count (get_prop k_total_emails r) && is_classification (get_prop k_classification r)
  && is_sequence (get_prop k_highlights r) && is_text (get_prop k_summary r).

(** A field that [safeParseJson] keeps (it is truthy) has the right type. *)
Definition kept_or_typed (ty : value -> bool) (v : value) : bool := negb (truthy v) || ty v.

Definition kept_fields_typed (parsed : list (jsstring * value)) : bool :=
  kept_or_typed is_count (get_prop k_total_emails parsed)
  && kept_or_typed is_classification (get_prop k_classification parsed)
  && kept_or_typed is_sequence (get_prop k_highlights parsed)
  && kept_or_typed is_text (get_prop k_summary parsed).

(** The four required fields and their defaults. *)
Definition required (k : jsstring) : bool :=
  bool_decide (k = k_total_emails) || bool_decide (k = k_classification)
  || bool_decide (k = k_highlights) || bool_decide (k = k_summary).

Definition default_of (k : jsstring) (fallbackTotal : nat) : value :=
  if bool_decide (k = k_total_emails) then VNum (number_of_nat fallbackTotal)
  else if bool_decide (k = k_classification) then zero_classification
  else if bool_decide (k = k_highlights) then VArr []
  else VStr [].

(** A value that is an object with the four fields. *)
Definition is_report (v : value) : bool :=
  match v with VObj r => has_all_fields r | _ => false end.

(** ** Observations on runs *)

(** From [w] to [w'] the handler only worked: no balance changed, nothing
    was charged, and the oracle was called [oracles] times over [rounds]
    merge rounds. *)
Definition worked (w w' : World) (oracles rounds : nat) : Prop :=
  profiles w' = profiles w
  /\ exists evs,
       log w' = log w ++ evs
       /\ count is_charge evs = 0
       /\ count is_oracle_call evs = oracles
       /\ count is_round evs = rounds.



(** The calls of step 1 go through: the procedure runs, or the call throws
    and the select and the update by hand succeed. *)
Definition ledger_answers (calls : ledger_calls) : bool :=
  match rpc_goes calls with
  | RpcRuns => true
  | RpcFails => false
  | RpcThrows => negb (byhand_select_fails calls) && negb (byhand_update_fails calls)
  end.

(** The text that the handler reads off a reply of the oracle. *)
Definition reply_text (reply : oracle_reply) : jsstring :=
  match reply with
  | Content c => content_or_empty c
  | Throws => []
  end.

(** The reply the oracle gives in [w], as the handler reads it. *)
Definition raw_reply (oracle : nat -> oracle_reply) (w : World) : jsstring :=
  reply_text (oracle (oracle_calls w)).

(** The repaired result of a batch whose oracle call is the one of number
    [c]. *)
Definition batch_result (parse : jsstring -> option value) (oracle : nat -> oracle_reply)
    (c : nat) (batch : list email) : list (jsstring * value) :=
  safeParseJson parse (reply_text (oracle c)) (length batch).

(** The result of a merge group whose oracle call is the one of number
    [c]. *)
Definition group_result (parse : jsstring -> option value) (oracle : nat -> oracle_reply)
    (c : nat) (group : list value) : value :=
  match oracle c with
  | Content x => VObj (safeParseJson parse (content_or_empty x) 0)
  | Throws => index group 0
  end.

(** What a loop of one oracle call and one insert per turn keeps when its
    first turn makes the oracle call of number [c] and the insert of number
    [k]: [f c' k' x] for every turn whose insert succeeds, in order. *)
Fixpoint saved {A B} (insert_fails : nat -> bool) (f : nat -> nat -> A -> B)
    (c k : nat) (turns : list A) : list B :=
  match turns with
  | [] => []
  | x :: rest =>
      (if insert_fails k then [] else [f c k x])
      ++ saved insert_fails f (S c) (S k) rest
  end.

(** What the batch loop of [/analyzev2] keeps, in the order of the batches,
    when its first turn makes the oracle call of number [c] and the insert
    of number [k]: the ids that the database gave, the repaired results,
    and the rows. *)
Section Kept.

Variable parse : jsstring -> option value.
Variable oracle : nat -> oracle_reply.
Variable insert_fails : nat -> bool.
Variable db_row : nat -> report_row.

Definition kept_ids (c k : nat) (batches : list (list email)) : list value :=
  saved insert_fails (fun _ k' _ => row_id (db_row k')) c k batches.

Definition kept_results (c k : nat) (batches : list (list email)) : list value :=
  saved insert_fails (fun c' _ batch => VObj (batch_result parse oracle c' batch)) c k batches.

Definition kept_rows (userId : string) (c k : nat) (batches : list (list email))
  : list report_row :=
  saved insert_fails
    (fun c' k' batch => mini_row userId (batch_result parse oracle c' batch) (db_row k'))
    c k batches.

End Kept.

(** The number of batches of [n] records. *)
Definition batch_count (n : nat) : nat := (n + BATCH_SIZE - 1) / BATCH_SIZE.

(** Every insert of the batch loop that starts at insert [k] fails. *)
Definition no_mini_saved (insert_fails : nat -> bool) (k n : nat) : Prop :=
  forall i, i < batch_count n -> insert_fails (k + i) = true.
(** ** The other routes of index.js

    The same conventions hold. A number of the request body or of a table
    that the code only compares, adds or subtracts is an integer, given as
    [Z]; a fraction, NaN or an infinity in that place is outside the
    model. *)


(** *** [parseInt(text, 10)]

    White space is skipped, then an optional sign, then the longest run of
    decimal digits; [None] is NaN, the answer to an empty run. (The integer
    is exact; the Number is the same below 2^53.) *)
Definition is_str_white_space (c : N) : bool :=
  ((9 <=? c) && (c <=? 13) || (c =? 32) || (c =? 160) || (c =? 5760)
   || (8192 <=? c) && (c <=? 8202) || (c =? 8232) || (c =? 8233) || (c =? 8239)
   || (c =? 8287) || (c =? 12288) || (c =? 65279))%N.

Fixpoint trim_start (s : jsstring) : jsstring :=
  match s with
  | c :: rest => if is_str_white_space c then trim_start rest else s
  | [] => []
  end.

Definition parseInt (text : jsstring) : option Z :=
  let s := trim_start text in
  let '(neg, s1) :=
    match s with
    | c :: rest =>
        if N.eqb c (ch "-") then (true, rest)
        else if N.eqb c (ch "+") then (false, rest)
        else (false, s)
    | [] => (false, s)
    end in
  let '(v, len, _) := Json.digits s1 0%Z 0 in
  match len with
  | O => None
  | S _ => Some (if neg then (- v)%Z else v)
  end.

(** *** [GET /credits] and [POST /consume] (index.js, lines 186-267) *)

Inductive credits_answer :=
| CreditsMissingUser        (* 400 "Missing userId param" *)
| CreditsNotConfigured      (* 500 "Supabase not configured" *)
| CreditsFetchFailed        (* 500 "Failed to fetch profile" *)
| CreditsCreateFailed       (* 500 "Failed to create profile" *)
| CreditsOf (credits : Z).

Inductive consume_answer :=
| ConsumeMissingParams      (* 400 "Missing params" *)
| ConsumeNotConfigured      (* 500 "Supabase not configured" *)
| ConsumeUserNotFound       (* 404 "User not found" *)
| ConsumeInsufficient       (* 402 "Insufficient credits" *)
| ConsumeUpdateFailed       (* 500 "Failed to update credits" *)
| ConsumeOk (credits : Z).

Section CreditRoutes.

(** Whether the [supabase] client exists. *)
Variable supabase_configured : bool.
(** Whether the select, the insert, the update on [profiles] comes back with
    an error; a request that fails leaves the table as it was. *)
Variable select_fails : bool.
Variable insert_fails : bool.
Variable update_fails : bool.

(** [GET /credits?userId=...]: the balance, of a profile created with 10
    credits when there is none. *)
Definition credits_get (userId : string) (w : World) : credits_answer * World :=
  if bool_decide (userId = EmptyString) then (CreditsMissingUser, w)
  else if negb supabase_configured then (CreditsNotConfigured, w)
  else if select_fails then (CreditsFetchFailed, w)
  else
    match profiles w !! userId with
    | None =>
        if insert_fails then (CreditsCreateFailed, w)
        else (CreditsOf 10, set_credits userId 10 w)
    | Some credits => (CreditsOf credits, w)
    end.

(** [POST /consume { userId, amount }]; [amount = None] when it is not of
    type number. *)
Definition consume (userId : string) (amount : option Z) (w : World)
  : consume_answer * World :=
  match amount with
  | None => (ConsumeMissingParams, w)
  | Some amount =>
      if bool_decide (userId = EmptyString) then (ConsumeMissingParams, w)
      else if negb supabase_configured then (ConsumeNotConfigured, w)
      else if select_fails then (ConsumeUserNotFound, w)
      else
        match profiles w !! userId with
        | None => (ConsumeUserNotFound, w)
        | Some credits =>
            if (credits <? amount)%Z then (ConsumeInsufficient, w)
            else if update_fails then (ConsumeUpdateFailed, w)
            else (ConsumeOk (credits - amount),
                  log_event (Charged userId amount)
                    (set_credits userId (credits - amount) w))
        end
  end.

End CreditRoutes.

(** *** [POST /webhook] (index.js, lines 69-70 and 281-346) *)

(** What the handler reads of a Stripe checkout session. *)
Record checkout_session := {
  session_id : jsstring;
  metadata_userId : option string;
  metadata_credits : option jsstring;
  amount_total : Z }.

(** What [stripe.webhooks.constructEvent] makes of the request: it throws,
    or it returns an event. *)
Inductive stripe_event :=
| SignatureInvalid
| CheckoutSessionCompleted (session : checkout_session)
| OtherEvent.

(** A row of the [payments] table; [status] is always "succeeded", and
    [amount] is [amount_total / 100], kept here in cents. *)
Record payment_row := {
  pay_user_id : string;
  pay_stripe_session_id : jsstring;
  pay_amount_cents : Z;
  pay_credits_added : Z }.

Record Billing := {
  ledger : World;
  payments : list payment_row }.

Inductive webhook_answer :=
| WebhookParserError        (* the error of a body parser, answered by Express *)
| WebhookSignatureError     (* 400 "Webhook Error: ..." *)
| WebhookServerError        (* 500 "Erreur serveur webhook" *)
| WebhookReceived.          (* { received: true } *)

(** The Content-Type of a request, as the body parsers tell them apart. *)
Inductive content_type :=
| ContentJson               (* application/json *)
| ContentUrlencoded         (* application/x-www-form-urlencoded *)
| ContentOther.

(** A request: its Content-Type, the bytes of its body when it has one, and
    its [stripe-signature] header. *)
Record webhook_request := {
  req_content_type : content_type;
  req_bytes : option jsstring;
  req_signature : option jsstring }.

(** What the body parsers have made of the body so far. *)
Inductive req_body :=
| BodyUnread                (* no parser has read it *)
| BodyObject (v : value)    (* read and parsed, by express.json or express.urlencoded *)
| BodyBuffer (bytes : jsstring).  (* read as it is, by bodyParser.raw *)

Section Webhook.

(** What a body parser makes of a body that it reads; [None] when it refuses
    it (malformed, too large), and Express answers with that error. *)
Variable read_json : jsstring -> option value.
Variable read_urlencoded : jsstring -> option value.
Variable read_raw : jsstring -> option jsstring.
(** [stripe.webhooks.constructEvent(req.body, sig, endpointSecret)] *)
Variable constructEvent : req_body -> option jsstring -> stripe_event.
(** Whether the [supabase] client exists. *)
Variable supabase_configured : bool.
Variable payment_insert_fails : bool.
Variable select_fails : bool.
Variable update_fails : bool.

(** A body parser passes on a request whose body was read before, that has
    no body, or whose Content-Type is not its own. [None]: it ends the
    request with an error. *)
Definition body_parser (own : content_type -> bool) (read : jsstring -> option req_body)
    (req : webhook_request) (b : req_body) : option req_body :=
  match b, req_bytes req with
  | BodyUnread, Some bytes => if own (req_content_type req) then read bytes else Some b
  | _, _ => Some b
  end.

Definition is_json (t : content_type) : bool :=
  match t with ContentJson => true | _ => false end.
Definition is_urlencoded (t : content_type) : bool :=
  match t with ContentUrlencoded => true | _ => false end.

(** [app.use(express.json({ limit: "10mb" }))], line 69. *)
Definition express_json := body_parser is_json (fun bytes => BodyObject <$> read_json bytes).

(** [app.use(express.urlencoded({ limit: "10mb", extended: true }))], line 70. *)
Definition express_urlencoded :=
  body_parser is_urlencoded (fun bytes => BodyObject <$> read_urlencoded bytes).

(** [bodyParser.raw({ type: "application/json" })], line 283. *)
Definition bodyParser_raw := body_parser is_json (fun bytes => BodyBuffer <$> read_raw bytes).

(** [parseInt(session.metadata?.credits || "0", 10)] *)
Definition creditsPurchased (session : checkout_session) : option Z :=
  parseInt match metadata_credits session with
           | Some (c :: rest) => c :: rest
           | _ => [ch "0"]
           end.

(** The handler, lines 284-345, from the event on. *)
Definition webhook (event : stripe_event) (st : Billing) : webhook_answer * Billing :=
  match event with
  | SignatureInvalid => (WebhookSignatureError, st)
  | OtherEvent => (WebhookReceived, st)
  | CheckoutSessionCompleted session =>
      match metadata_userId session, creditsPurchased session with
      | Some userId, Some credits =>
          if bool_decide (userId = EmptyString) || (credits =? 0)%Z
          then (WebhookServerError, st)
          else if negb supabase_configured then (WebhookServerError, st)
          else if payment_insert_fails then (WebhookServerError, st)
          else
            let st1 :=
              {| ledger := ledger st;
                 payments := payments st ++
                   [{| pay_user_id := userId;
                       pay_stripe_session_id := session_id session;
                       pay_amount_cents := amount_total session;
                       pay_credits_added := credits |}] |} in
            if select_fails then (WebhookServerError, st1)
            else
              match profiles (ledger st) !! userId with
              | None => (WebhookServerError, st1)
              | Some balance =>
                  if update_fails then (WebhookServerError, st1)
                  else (WebhookReceived,
                        {| ledger := set_credits userId (balance + credits) (ledger st);
                           payments := payments st1 |})
              end
      | _, _ => (WebhookServerError, st)
      end
  end.

(** The body as the handler finds it: the two parsers of the application
    come first, in the order of their [app.use], then the parser of the
    route. *)
Definition webhook_body (req : webhook_request) : option req_body :=
  b1 ← express_json req BodyUnread;
  b2 ← express_urlencoded req b1;
  bodyParser_raw req b2.

(** The route as it is mounted. *)
Definition webhook_route (req : webhook_request) (st : Billing) : webhook_answer * Billing :=
  match webhook_body req with
  | None => (WebhookParserError, st)
  | Some b => webhook (constructEvent b (req_signature req)) st
  end.

End Webhook.

(** *** [POST /create-checkout-session] (index.js, lines 348-409) *)

(** [CREDIT_PACKS[credits]]: credits to price in cents. *)
Definition CREDIT_PACKS (credits : Z) : option Z :=
  if (credits =? 100)%Z then Some 500%Z
  else if (credits =? 500)%Z then Some 2000%Z
  else if (credits =? 2000)%Z then Some 7000%Z
  else None.

(** What is asked of [stripe.checkout.sessions.create]: one line item of
    quantity 1 in euros, and the metadata. *)
Record session_request := {
  unit_amount : Z;
  request_userId : string;
  request_credits : Z }.

Inductive checkout_answer :=
| CheckoutMissingParams     (* 400 "userId et credits requis" *)
| CheckoutInvalidPack       (* 400 "Pack de crédits invalide" *)
| CheckoutFailed            (* 500 "Impossible de créer la session Stripe" *)
| CheckoutUrl (url : jsstring).

Section Checkout.

(** [stripe.checkout.sessions.create]: the url of the session, or [None]
    when it throws. *)
Variable stripe_create : session_request -> option jsstring.

(** [credits_text] is the body's [credits] as a string, which is what
    [parseInt] makes of its argument first. The answer, and the requests
    made to Stripe. *)
Definition create_checkout_session (userId : string) (credits_text : jsstring)
  : checkout_answer * list session_request :=
  match parseInt credits_text with
  | None => (CheckoutMissingParams, [])
  | Some credits =>
      if bool_decide (userId = EmptyString) then (CheckoutMissingParams, [])
      else
        match CREDIT_PACKS credits with
        | None => (CheckoutInvalidPack, [])
        | Some amount =>
            let request :=
              {| unit_amount := amount; request_userId := userId;
                 request_credits := credits |} in
            (match stripe_create request with
             | Some url => CheckoutUrl url
             | None => CheckoutFailed
             end, [request])
        end
  end.

End Checkout.

(** test-stripe.js, line 16:
    [credits === 100 ? 500 : credits === 500 ? 2000 : 7000];
    [None] is a [credits] that is not an integer Number. *)
Definition test_unit_amount (credits : option Z) : Z :=
  match credits with
  | Some credits =>
      if (credits =? 100)%Z then 500
      else if (credits =? 500)%Z then 2000
      else 7000
  | None => 7000
  end.

(** *** [GET /reports] (index.js, lines 765-814) *)










(** *** Reading a Gmail message (index.js, lines 124-149 and 444-496) *)

Record header := { header_name : jsstring; header_value : jsstring }.

(** A MIME part: its type, the data of its body when it has some, and its
    parts. *)
Inductive payload :=
| Payload (mimeType : jsstring) (data : option jsstring) (parts : list payload).

Definition text_plain : jsstring := Eval cbv in js "text/plain".
Definition text_html : jsstring := Eval cbv in js "text/html".

Section Mail.

(** [String.prototype.toLowerCase] *)
Variable toLowerCase : jsstring -> jsstring.
(** [Buffer.from(b64, "base64").toString("utf8")] *)
Variable Buffer_from_base64 : jsstring -> jsstring.

(** [headers.find(...)]: the value of the first header of that name,
    whatever the case; [None] is [null]. *)
Fixpoint parseHeaders (headers : list header) (name : jsstring) : option jsstring :=
  match headers with
  | [] => None
  | h :: rest =>
      if bool_decide (toLowerCase (header_name h) = toLowerCase name)
      then Some (header_value h)
      else parseHeaders rest name
  end.

(** [parseHeaders(headers, name) || dflt] *)
Definition header_or (headers : list header) (name dflt : jsstring) : jsstring :=
  match parseHeaders headers name with
  | Some (c :: rest) => c :: rest
  | _ => dflt
  end.

Definition decodeBase64UrlToString (b64url : jsstring) : jsstring :=
  match b64url with
  | [] => []
  | _ :: _ =>
      let b64 :=
        map (fun c => if N.eqb c (ch "_") then ch "/" else c)
          (map (fun c => if N.eqb c (ch "-") then ch "+" else c) b64url) in
      Buffer_from_base64 b64
  end.

(** [payload.body?.data], when it is truthy. *)
Definition body_data (data : option jsstring) : option jsstring :=
  match data with
  | Some (c :: rest) => Some (c :: rest)
  | _ => None
  end.

Fixpoint extractPlainText (p : payload) : jsstring :=
  match p with
  | Payload mimeType data parts =>
      match body_data data with
      | Some d =>
          if bool_decide (mimeType = text_plain) then decodeBase64UrlToString d
          else if bool_decide (mimeType = text_html) then decodeBase64UrlToString d
          else concat (map extractPlainText parts)
      | None => concat (map extractPlainText parts)
      end
  end.

(** Whether some part of the tree carries data. *)
Fixpoint has_any_data (p : payload) : bool :=
  match p with
  | Payload _ data parts =>
      match body_data data with
      | Some _ => true
      | None => existsb has_any_data parts
      end
  end.

(** [None] is a payload that is missing. *)
Definition extractPlainTextFromPayload (p : option payload) : jsstring :=
  match p with
  | None => []
  | Some p => extractPlainText p
  end.

End Mail.

(** [toLowerCase] on a text of ASCII characters, for concrete runs. *)
Definition lower_ascii (s : jsstring) : jsstring :=
  map (fun c => if ((65 <=? c) && (c <=? 90))%N then (c + 32)%N else c) s.

(** * Properties *)

(** ** The chunker *)

Section Chunker.

Context {A : Type}.
Implicit Types (arr : list A) (out bs : list (list A)).

Lemma slice_length arr i j : length (slice arr i j) = Nat.min (j - i) (length arr - i).
Proof. unfold slice. rewrite length_take, length_drop. reflexivity. Qed.

Lemma chunk_loop_spec arr size :
  1 <= size ->
  forall fuel i out,
    length arr <= i + fuel ->
    exists bs,
      chunk_loop fuel arr size i out = Some (out ++ bs)
      /\ concat bs = drop i arr
      /\ length arr - i <= length bs * size
      /\ length bs * size < length arr - i + size
      /\ (forall k b, bs !! k = Some b ->
                      b = slice arr (i + k * size) (i + k * size + size)).
Proof.
  intros Hsize fuel.
  induction fuel as [|fuel IH]; intros i out Hfuel; simpl.
  - destruct (Nat.ltb_spec i (length arr)) as [Hlt|Hge]; [lia|].
    exists []. rewrite app_nil_r, drop_ge by lia.
    repeat split; simpl; try lia. intros k b Hk. discriminate.
  - destruct (Nat.ltb_spec i (length arr)) as [Hlt|Hge].
    + destruct (IH (i + size) (out ++ [slice arr i (i + size)])) as
        (bs & Hrun & Hcat & Hlo & Hhi & Hnth); [lia|].
      exists (slice arr i (i + size) :: bs).
      rewrite Hrun, <- app_assoc. simpl.
      split; [reflexivity|]. split.
      { rewrite Hcat. unfold slice.
        replace (i + size - i) with size by lia.
        rewrite <- drop_drop. apply take_drop. }
      split; [simpl; lia|]. split.
      { simpl. destruct (Nat.le_gt_cases (i + size) (length arr)) as [Hfull|Hlast]; [lia|].
        destruct (length bs) as [|m]; simpl in *; lia. }
      intros [|k] b Hk; simpl in Hk.
      * inversion Hk; subst. f_equal; lia.
      * rewrite (Hnth k b Hk). f_equal; lia.
    + exists []. rewrite app_nil_r, drop_ge by lia.
      repeat split; simpl; try lia. intros k b Hk. discriminate.
Qed.

End Chunker.

(** What [chunkArray] returns for a size of at least 1. *)
Lemma chunkArray_spec {A} (arr : list A) (size : nat) :
  1 <= size ->
  exists bs,
    chunkArray arr size = Some bs
    /\ concat bs = arr
    /\ length arr <= length bs * size
    /\ length bs * size < length arr + size
    /\ length bs = (length arr + size - 1) / size
    /\ Forall (fun b => 1 <= length b <= size) bs
    /\ (forall k b, bs !! k = Some b -> S k < length bs -> length b = size)
    /\ (forall k b, bs !! k = Some b -> b = slice arr (k * size) (k * size + size)).
Proof.
  intros Hsize. unfold chunkArray.
  destruct (chunk_loop_spec arr size Hsize (length arr) 0 []) as
    (bs & Hrun & Hcat & Hlo & Hhi & Hnth); [lia|].
  exists bs. simpl in Hrun. rewrite Nat.sub_0_r in Hlo, Hhi.
  assert (Hlen : forall k b, bs !! k = Some b ->
                   length b = Nat.min size (length arr - k * size)).
  { intros k b Hk. rewrite (Hnth k b Hk), slice_length. simpl. f_equal; lia. }
  assert (Hk_lt : forall k b, bs !! k = Some b -> k < length bs).
  { intros k b Hk. apply lookup_lt_Some in Hk. exact Hk. }
  split; [exact Hrun|]. split; [exact Hcat|].
  split; [exact Hlo|]. split; [exact Hhi|]. split.
  { apply (Nat.div_unique _ _ _ (length arr + size - 1 - size * length bs)); nia. }
  split.
  { apply Forall_lookup. intros k b Hk.
    pose proof (Hlen k b Hk) as Hl. pose proof (Hk_lt k b Hk) as Hlt.
    assert (k * size < length arr) by nia. lia. }
  split.
  { intros k b Hk Hnext. rewrite (Hlen k b Hk).
    assert ((k + 2) * size <= length bs * size) by nia. nia. }
  intros k b Hk. rewrite (Hnth k b Hk). reflexivity.
Qed.

(** C7. For every sequence of records and every size of at least 1,
    [chunkArray] returns; its batches concatenated in order are the input;
    there are ceil(n / size) of them; no batch is empty or longer than
    [size] and only the last one may be shorter; the k-th batch is the slice
    that starts at k * size; an empty input gives no batch at all. *)
Theorem chunkArray_partitions {A} (records : list A) (size : nat) :
  1 <= size ->
  exists batches,
    chunkArray records size = Some batches
    /\ concat batches = records
    /\ length batches = (length records + size - 1) / size
    /\ Forall (fun b => 1 <= length b <= size) batches
    /\ (forall k b, batches !! k = Some b -> S k < length batches -> length b = size)
    /\ (forall k b, batches !! k = Some b -> b = slice records (k * size) (k * size + size))
    /\ (records = [] -> batches = []).
Proof.
  intros Hsize.
  destruct (chunkArray_spec records size Hsize) as
    (bs & Hrun & Hcat & Hlo & Hhi & Hdiv & Hsizes & Hfull & Hnth).
  exists bs. repeat (split; [assumption|]).
  intros ->. simpl in Hhi. destruct bs as [|b bs]; [reflexivity|]. simpl in Hhi. nia.
Qed.

Lemma chunkArray_partitions_witness :
  1 <= 2 /\
  exists batches,
    chunkArray [10; 20; 30; 40; 50] 2 = Some batches
    /\ concat batches = [10; 20; 30; 40; 50]
    /\ length batches = (length [10; 20; 30; 40; 50] + 2 - 1) / 2
    /\ Forall (fun b => 1 <= length b <= 2) batches
    /\ (forall k b, batches !! k = Some b -> S k < length batches -> length b = 2)
    /\ (forall k b, batches !! k = Some b -> b = slice [10; 20; 30; 40; 50] (k * 2) (k * 2 + 2))
    /\ ([10; 20; 30; 40; 50] = [] -> batches = []).
Proof. split; [lia | apply (chunkArray_partitions [10; 20; 30; 40; 50] 2); lia]. Defined.

(** ** Result repair *)

Section PropsOfObjects.

Implicit Types (k : jsstring) (v : value) (p : list (jsstring * value)).

Lemma get_set_eq k v p : get_prop k (set_prop k v p) = v.
Proof.
  induction p as [|[k' v'] p IH]; simpl.
  - rewrite bool_decide_eq_true_2; reflexivity.
  - destruct (bool_decide (k = k')) eqn:E; simpl.
    + rewrite bool_decide_eq_true_2; reflexivity.
    + rewrite E. exact IH.
Qed.

Lemma get_set_ne k k' v p : k <> k' -> get_prop k' (set_prop k v p) = get_prop k' p.
Proof.
  intros Hne. induction p as [|[k0 v0] p IH]; simpl.
  - rewrite bool_decide_eq_false_2 by congruence. reflexivity.
  - destruct (bool_decide (k = k0)) eqn:E; simpl.
    + apply bool_decide_eq_true_1 in E. subst k0.
      rewrite !bool_decide_eq_false_2 by congruence. reflexivity.
    + rewrite IH. reflexivity.
Qed.

Lemma has_set_eq k v p : has_prop k (set_prop k v p) = true.
Proof.
  induction p as [|[k' v'] p IH]; simpl.
  - rewrite bool_decide_eq_true_2; reflexivity.
  - destruct (bool_decide (k = k')) eqn:E; simpl.
    + rewrite bool_decide_eq_true_2; reflexivity.
    + rewrite E. exact IH.
Qed.

Lemma has_set_mono k k' v p : has_prop k' p = true -> has_prop k' (set_prop k v p) = true.
Proof.
  induction p as [|[k0 v0] p IH]; simpl; [discriminate|].
  intros H. destruct (bool_decide (k = k0)) eqn:E; simpl.
  - apply bool_decide_eq_true_1 in E. subst k0. exact H.
  - apply orb_true_iff in H as [H|H]; [rewrite H; reflexivity|].
    rewrite (IH H). apply orb_true_r.
Qed.

Lemma truthy_has k p : truthy (get_prop k p) = true -> has_prop k p = true.
Proof.
  induction p as [|[k' v'] p IH]; simpl; [discriminate|].
  destruct (bool_decide (k = k')); simpl; auto.
Qed.

Lemma get_fill_eq k v p :
  get_prop k (fill k v p) = if truthy (get_prop k p) then get_prop k p else v.
Proof. unfold fill. destruct (truthy (get_prop k p)); [reflexivity | apply get_set_eq]. Qed.

Lemma get_fill_ne k k' v p : k <> k' -> get_prop k' (fill k v p) = get_prop k' p.
Proof.
  intros Hne. unfold fill.
  destruct (truthy (get_prop k p)); [reflexivity | apply get_set_ne, Hne].
Qed.

Lemma has_fill_eq k v p : has_prop k (fill k v p) = true.
Proof.
  unfold fill. destruct (truthy (get_prop k p)) eqn:E;
    [apply truthy_has, E | apply has_set_eq].
Qed.

Lemma has_fill_mono k k' v p : has_prop k' p = true -> has_prop k' (fill k v p) = true.
Proof.
  unfold fill. destruct (truthy (get_prop k p)); [auto | apply has_set_mono].
Qed.

End PropsOfObjects.

(** The names of the four fields are pairwise distinct. *)
Ltac distinct_keys := intros Heq; vm_compute in Heq; discriminate Heq.

Lemma get_fill_defaults k parsed fallbackTotal :
  get_prop k (fill_defaults parsed fallbackTotal) =
  if required k && negb (truthy (get_prop k parsed))
  then default_of k fallbackTotal else get_prop k parsed.
Proof.
  unfold fill_defaults, required, default_of.
  destruct (bool_decide (k = k_summary)) eqn:E4.
  { apply bool_decide_eq_true_1 in E4. subst k.
    rewrite get_fill_eq, !get_fill_ne by distinct_keys.
    destruct (truthy (get_prop k_summary parsed)); reflexivity. }
  apply bool_decide_eq_false_1 in E4. rewrite get_fill_ne by congruence.
  destruct (bool_decide (k = k_highlights)) eqn:E3.
  { apply bool_decide_eq_true_1 in E3. subst k.
    rewrite get_fill_eq, !get_fill_ne by distinct_keys.
    destruct (truthy (get_prop k_highlights parsed)); reflexivity. }
  apply bool_decide_eq_false_1 in E3. rewrite get_fill_ne by congruence.
  destruct (bool_decide (k = k_classification)) eqn:E2.
  { apply bool_decide_eq_true_1 in E2. subst k.
    rewrite get_fill_eq, !get_fill_ne by distinct_keys.
    destruct (truthy (get_prop k_classification parsed)); reflexivity. }
  apply bool_decide_eq_false_1 in E2. rewrite get_fill_ne by congruence.
  destruct (bool_decide (k = k_total_emails)) eqn:E1.
  { apply bool_decide_eq_true_1 in E1. subst k.
    rewrite get_fill_eq.
    destruct (truthy (get_prop k_total_emails parsed)); reflexivity. }
  apply bool_decide_eq_false_1 in E1. rewrite get_fill_ne by congruence.
  reflexivity.
Qed.

Lemma has_all_fields_fill_defaults parsed fallbackTotal :
  has_all_fields (fill_defaults parsed fallbackTotal) = true.
Proof.
  unfold has_all_fields, fill_defaults.
  rewrite !andb_true_iff. repeat split;
    repeat first [apply has_fill_eq | apply has_fill_mono].
Qed.

Lemma is_count_of_nat n : is_count (VNum (number_of_nat n)) = true.
Proof. destruct n; reflexivity. Qed.

Lemma well_typed_fallback str fallbackTotal :
  well_typed (fallback_result str fallbackTotal) = true.
Proof.
  unfold well_typed, fallback_result.
  change (get_prop k_total_emails _) with (VNum (number_of_nat fallbackTotal)).
  rewrite is_count_of_nat. reflexivity.
Qed.

Lemma typed_after_fill (ty : value -> bool) (v d : value) :
  ty d = true -> ty (if truthy v then v else d) = kept_or_typed ty v.
Proof. intros Hd. unfold kept_or_typed. destruct (truthy v); simpl; [reflexivity | exact Hd]. Qed.

Lemma well_typed_fill_defaults parsed fallbackTotal :
  well_typed (fill_defaults parsed fallbackTotal) = kept_fields_typed parsed.
Proof.
  unfold well_typed, kept_fields_typed.
  rewrite !get_fill_defaults.
  change (required k_total_emails) with true. change (required k_classification) with true.
  change (required k_highlights) with true. change (required k_summary) with true.
  change (default_of k_total_emails fallbackTotal) with (VNum (number_of_nat fallbackTotal)).
  change (default_of k_classification fallbackTotal) with zero_classification.
  change (default_of k_highlights fallbackTotal) with (VArr []).
  change (default_of k_summary fallbackTotal) with (VStr []).
  assert (Hif : forall (b : bool) (d x : value),
             (if true && negb b then d else x) = (if b then x else d))
    by (intros [] d x; reflexivity).
  rewrite !Hif.
  rewrite (typed_after_fill is_count) by apply is_count_of_nat.
  rewrite (typed_after_fill is_classification) by reflexivity.
  rewrite (typed_after_fill is_sequence) by reflexivity.
  rewrite (typed_after_fill is_text) by reflexivity.
  reflexivity.
Qed.

Lemma safeParseJson_has_all_fields parse str fallbackTotal :
  has_all_fields (safeParseJson parse str fallbackTotal) = true.
Proof.
  unfold safeParseJson.
  destruct (match_braces str) as [m0|]; [|reflexivity].
  destruct (parse m0) as [[]|]; try reflexivity.
  apply has_all_fields_fill_defaults.
Qed.

(** C1, as amended. For every raw text and every behaviour of [JSON.parse],
    [safeParseJson] returns an object in which the four fields are present.
    The fields are correctly typed exactly when every field that the parsed
    object supplies with a truthy value has the right type; in particular
    they are whenever no object could be parsed and the fallback is
    returned. *)
Theorem safeParseJson_total_fields_present
    (parse : jsstring -> option value) (str : jsstring) (fallbackTotal : nat) :
  has_all_fields (safeParseJson parse str fallbackTotal) = true
  /\ well_typed (safeParseJson parse str fallbackTotal) =
       match match_braces str ≫= parse with
       | Some (VObj parsed) => kept_fields_typed parsed
       | _ => true
       end.
Proof.
  split; [apply safeParseJson_has_all_fields|].
  unfold safeParseJson.
  destruct (match_braces str) as [m0|]; simpl; [|apply well_typed_fallback].
  destruct (parse m0) as [[]|]; try apply well_typed_fallback.
  apply well_typed_fill_defaults.
Qed.

(** C1, as stated, fails: the oracle answers with a string where the count
    should be, in a code fence, and the string is returned as
    [total_emails]. *)
Lemma safeParseJson_keeps_ill_typed_field :
  let r := safeParseJson Json.parse (jq "```json {'total_emails':'many'} ```") 3 in
  get_prop k_total_emails r = VStr (js "many") /\ well_typed r = false.
Proof. vm_compute. split; reflexivity. Qed.

(** C8, as amended. When a JSON object is parsed out of the raw text, a
    required field that is missing or falsy in it (0, "", null, false) takes
    its default, and every other field, required or not, is the one of the
    parsed object. *)
Theorem safeParseJson_fills_falsy_fields
    (parse : jsstring -> option value) (str m0 : jsstring)
    (parsed : list (jsstring * value)) (fallbackTotal : nat) (k : jsstring) :
  match_braces str = Some m0 ->
  parse m0 = Some (VObj parsed) ->
  get_prop k (safeParseJson parse str fallbackTotal) =
    if required k && negb (truthy (get_prop k parsed))
    then default_of k fallbackTotal
    else get_prop k parsed.
Proof.
  intros Hm Hp. unfold safeParseJson. rewrite Hm, Hp. apply get_fill_defaults.
Qed.

Lemma safeParseJson_fills_falsy_fields_witness :
  match_braces (jq "ok {'total_emails':0,'summary':'fine','extra':true} end")
    = Some (jq "{'total_emails':0,'summary':'fine','extra':true}")
  /\ Json.parse (jq "{'total_emails':0,'summary':'fine','extra':true}")
    = Some (VObj [(k_total_emails, zero); (k_summary, VStr (js "fine"));
                  (js "extra", VBool true)])
  /\ get_prop k_summary
       (safeParseJson Json.parse
          (jq "ok {'total_emails':0,'summary':'fine','extra':true} end") 7)
     = VStr (js "fine").
Proof.
  split; [vm_compute; reflexivity|]. split; [vm_compute; reflexivity|].
  rewrite (safeParseJson_fills_falsy_fields Json.parse
             (jq "ok {'total_emails':0,'summary':'fine','extra':true} end")
             (jq "{'total_emails':0,'summary':'fine','extra':true}")
             [(k_total_emails, zero); (k_summary, VStr (js "fine")); (js "extra", VBool true)]
             7 k_summary);
    vm_compute; reflexivity.
Defined.

(** C8, as stated, fails: the parsed object has [total_emails], with the
    value 0, and the result has the fallback count 7 in its place. *)
Lemma safeParseJson_overwrites_present_zero :
  exists parsed,
    Json.parse (jq "{'total_emails':0}") = Some (VObj parsed)
    /\ has_prop k_total_emails parsed = true
    /\ get_prop k_total_emails parsed = zero
    /\ get_prop k_total_emails (safeParseJson Json.parse (jq "{'total_emails':0}") 7)
       = VNum (number_of_nat 7)
    /\ get_prop k_total_emails (safeParseJson Json.parse (jq "{'total_emails':0}") 7)
       <> get_prop k_total_emails parsed.
Proof.
  exists [(k_total_emails, zero)]. vm_compute. repeat split; try reflexivity. discriminate.
Qed.


(** ** Runs of the handler *)

Lemma count_app p l1 l2 : count p (l1 ++ l2) = count p l1 + count p l2.
Proof. induction l1 as [|e l1 IH]; simpl; [reflexivity | rewrite IH; lia]. Qed.

Lemma worked_refl w : worked w w 0 0.
Proof. split; [reflexivity|]. exists []. rewrite app_nil_r. repeat split. Qed.

Lemma worked_trans w w1 w2 o1 r1 o2 r2 :
  worked w w1 o1 r1 -> worked w1 w2 o2 r2 -> worked w w2 (o1 + o2) (r1 + r2).
Proof.
  intros [Hp1 (e1 & Hl1 & Hc1 & Ho1 & Hr1)] [Hp2 (e2 & Hl2 & Hc2 & Ho2 & Hr2)].
  split; [congruence|]. exists (e1 ++ e2).
  rewrite Hl2, Hl1, <- app_assoc, !count_app. repeat split; lia.
Qed.

Lemma worked_oracle_calls w w' o r : worked w w' o r -> oracle_calls w' = oracle_calls w + o.
Proof.
  intros [_ (evs & Hl & _ & Ho & _)]. unfold oracle_calls. rewrite Hl, count_app. lia.
Qed.

Lemma worked_merge_rounds w w' o r : worked w w' o r -> merge_rounds w' = merge_rounds w + r.
Proof.
  intros [_ (evs & Hl & _ & _ & Hr)]. unfold merge_rounds. rewrite Hl, count_app. lia.
Qed.

Lemma worked_oracle_event w : worked w (log_event OracleCalled w) 1 0.
Proof. split; [reflexivity|]. exists [OracleCalled]. repeat split. Qed.

Lemma worked_round_event w : worked w (log_event RoundStarted w) 0 1.
Proof. split; [reflexivity|]. exists [RoundStarted]. repeat split. Qed.

Lemma insert_calls_log_event e w :
  insert_calls (log_event e w) = insert_calls w + (if is_insert e then 1 else 0).
Proof. unfold insert_calls, log_event. simpl. rewrite count_app. simpl. lia. Qed.

(** *** What a loop keeps *)

Section Saved.

Context {A B : Type}.
Variable insert_fails : nat -> bool.
Implicit Types (f : nat -> nat -> A -> B) (turns : list A).

Lemma saved_none f turns :
  forall c k,
    (forall i, i < length turns -> insert_fails (k + i) = true) ->
    saved insert_fails f c k turns = [].
Proof.
  induction turns as [|x rest IH]; intros c k Hall; simpl; [reflexivity|].
  rewrite <- (Nat.add_0_r k) at 1. rewrite (Hall 0) by (simpl; lia). simpl.
  apply IH. intros i Hi. replace (S k + i) with (k + S i) by lia.
  apply Hall. simpl. lia.
Qed.

Lemma saved_nil_inv f turns :
  forall c k,
    saved insert_fails f c k turns = [] ->
    forall i, i < length turns -> insert_fails (k + i) = true.
Proof.
  induction turns as [|x rest IH]; intros c k Hnil i Hi; simpl in *; [lia|].
  destruct (insert_fails k) eqn:Hk; [|discriminate Hnil]. simpl in Hnil.
  destruct i as [|i]; [rewrite Nat.add_0_r; exact Hk|].
  replace (k + S i) with (S k + i) by lia. apply (IH (S c) (S k) Hnil). lia.
Qed.

Lemma saved_all f turns :
  forall c k,
    (forall i, i < length turns -> insert_fails (k + i) = false) ->
    saved insert_fails f c k turns = imap (fun i x => f (c + i) (k + i) x) turns.
Proof.
  induction turns as [|x rest IH]; intros c k Hall; simpl; [reflexivity|].
  rewrite <- (Nat.add_0_r k) at 1. rewrite (Hall 0) by (simpl; lia). simpl.
  rewrite !Nat.add_0_r. f_equal.
  rewrite IH.
  - apply imap_ext. intros i y _. simpl. f_equal; lia.
  - intros i Hi. replace (S k + i) with (k + S i) by lia. apply Hall. simpl. lia.
Qed.

Lemma saved_Forall (P : B -> Prop) f turns :
  (forall c k x, P (f c k x)) ->
  forall c k, Forall P (saved insert_fails f c k turns).
Proof.
  intros Hf. induction turns as [|x rest IH]; intros c k; simpl; [constructor|].
  destruct (insert_fails k); simpl; [apply IH|]. constructor; [apply Hf | apply IH].
Qed.

Lemma saved_elem_of f turns :
  forall c k y,
    y ∈ saved insert_fails f c k turns <->
    exists i x, turns !! i = Some x /\ insert_fails (k + i) = false /\ y = f (c + i) (k + i) x.
Proof.
  induction turns as [|x rest IH]; intros c k y; cbn [saved].
  - split; [intros Hy; apply elem_of_nil in Hy; contradiction|].
    intros (i & x & Hx & _). discriminate Hx.
  - rewrite elem_of_app, IH. split.
    + intros [Hy | (i & x' & Hx' & Hok & ->)].
      * destruct (insert_fails k) eqn:Hk; [apply elem_of_nil in Hy; contradiction|].
        apply list_elem_of_singleton in Hy. exists 0, x.
        rewrite !Nat.add_0_r. auto.
      * exists (S i), x'. replace (k + S i) with (S k + i) by lia.
        replace (c + S i) with (S c + i) by lia. auto.
    + intros ([|i] & x' & Hx' & Hok & ->).
      * left. injection Hx' as <-. rewrite !Nat.add_0_r in *. rewrite Hok.
        apply list_elem_of_singleton. reflexivity.
      * right. exists i, x'. replace (S k + i) with (k + S i) by lia.
        replace (S c + i) with (c + S i) by lia. auto.
Qed.

Lemma saved_length_le f turns : forall c k, length (saved insert_fails f c k turns) <= length turns.
Proof.
  induction turns as [|x rest IH]; intros c k; simpl; [lia|].
  specialize (IH (S c) (S k)). destruct (insert_fails k); simpl; lia.
Qed.

End Saved.

Lemma saved_map {A B C} insert_fails (g : B -> C) (f : nat -> nat -> A -> B) turns :
  forall c k,
    map g (saved insert_fails f c k turns)
    = saved insert_fails (fun c' k' x => g (f c' k' x)) c k turns.
Proof.
  induction turns as [|x rest IH]; intros c k; simpl; [reflexivity|].
  rewrite map_app, IH. destruct (insert_fails k); reflexivity.
Qed.

Lemma saved_same_length {A B C} insert_fails
    (f : nat -> nat -> A -> B) (g : nat -> nat -> A -> C) turns :
  forall c k,
    length (saved insert_fails f c k turns) = length (saved insert_fails g c k turns).
Proof.
  induction turns as [|x rest IH]; intros c k; simpl; [reflexivity|].
  rewrite !length_app, (IH (S c) (S k)). destruct (insert_fails k); reflexivity.
Qed.

(** *** The batch loop *)

Section Runs.

Variable JSON_parse : jsstring -> option value.
Variable oracle : nat -> oracle_reply.
Variable insert_fails : nat -> bool.
Variable db_row : nat -> report_row.

Lemma insert_report_eq columns w :
  insert_report insert_fails db_row columns w =
  if insert_fails (insert_calls w) then (None, log_event (InsertTried false) w)
  else (Some (columns (db_row (insert_calls w))),
        log_event (InsertTried true)
          {| profiles := profiles w;
             reports := reports w ++ [columns (db_row (insert_calls w))];
             log := log w |}).
Proof. reflexivity. Qed.

Lemma insert_report_worked columns w res w' :
  insert_report insert_fails db_row columns w = (res, w') -> worked w w' 0 0.
Proof.
  rewrite insert_report_eq. destruct (insert_fails (insert_calls w)); intros [= <- <-].
  - split; [reflexivity|]. exists [InsertTried false]. repeat split.
  - split; [reflexivity|]. exists [InsertTried true]. repeat split.
Qed.

(** What one turn of the batch loop does, by the outcome of its insert. *)
Lemma analyze_batch_eq userId batch ids partial w :
  fst (analyze_batch JSON_parse oracle insert_fails db_row userId batch (ids, partial) w) =
  if insert_fails (insert_calls w) then (ids, partial)
  else (ids ++ [row_id (db_row (insert_calls w))],
        partial ++ [VObj (batch_result JSON_parse oracle (oracle_calls w) batch)]).
Proof.
  unfold analyze_batch, ask_oracle, batch_result, reply_text. cbv zeta.
  rewrite insert_report_eq, insert_calls_log_event. simpl is_insert. cbv iota.
  rewrite Nat.add_0_r.
  destruct (insert_fails (insert_calls w)); reflexivity.
Qed.

Lemma analyze_batch_reports userId batch acc w :
  reports (snd (analyze_batch JSON_parse oracle insert_fails db_row userId batch acc w)) =
  if insert_fails (insert_calls w) then reports w
  else reports w ++
       [mini_row userId (batch_result JSON_parse oracle (oracle_calls w) batch)
          (db_row (insert_calls w))].
Proof.
  unfold analyze_batch, ask_oracle, batch_result, reply_text. destruct acc as [ids partial].
  rewrite insert_report_eq, insert_calls_log_event. simpl is_insert. cbv iota.
  rewrite Nat.add_0_r.
  destruct (insert_fails (insert_calls w)); reflexivity.
Qed.

Lemma analyze_batch_worked userId batch acc w :
  worked w (snd (analyze_batch JSON_parse oracle insert_fails db_row userId batch acc w)) 1 0.
Proof.
  unfold analyze_batch, ask_oracle. destruct acc as [ids partial].
  destruct (insert_report _ _ _ _) as [[row|] w2] eqn:Hins; simpl;
    apply insert_report_worked in Hins;
    apply (worked_trans _ _ _ 1 0 0 0 (worked_oracle_event w) Hins).
Qed.

Lemma analyze_batch_insert_calls userId batch acc w :
  insert_calls (snd (analyze_batch JSON_parse oracle insert_fails db_row userId batch acc w))
  = S (insert_calls w).
Proof.
  unfold analyze_batch, ask_oracle. destruct acc as [ids partial].
  rewrite insert_report_eq.
  destruct (insert_fails _); unfold insert_calls; simpl;
    rewrite !count_app; simpl; lia.
Qed.

(** The batch loop in closed form: the ids it records, the results it hands
    to the merge and the rows it adds are those of the turns whose insert
    succeeded, in order; every turn makes one oracle call and one insert. *)
Lemma analyze_batches_spec userId batches :
  forall ids partial w,
    let res := analyze_batches JSON_parse oracle insert_fails db_row userId batches
                 (ids, partial) w in
    fst res =
      (ids ++ kept_ids insert_fails db_row (oracle_calls w) (insert_calls w) batches,
       partial ++ kept_results JSON_parse oracle insert_fails
                    (oracle_calls w) (insert_calls w) batches)
    /\ reports (snd res) =
         reports w ++ kept_rows JSON_parse oracle insert_fails db_row userId
                        (oracle_calls w) (insert_calls w) batches
    /\ worked w (snd res) (length batches) 0
    /\ insert_calls (snd res) = insert_calls w + length batches.
Proof.
  unfold kept_ids, kept_results, kept_rows.
  induction batches as [|batch rest IH]; intros ids partial w; cbn [analyze_batches].
  - cbn [fst snd saved length]. rewrite !app_nil_r, Nat.add_0_r.
    repeat split. exists []. rewrite app_nil_r. repeat split.
  - pose proof (analyze_batch_eq userId batch ids partial w) as Hacc.
    pose proof (analyze_batch_reports userId batch (ids, partial) w) as Hrep.
    pose proof (analyze_batch_worked userId batch (ids, partial) w) as Hw.
    pose proof (analyze_batch_insert_calls userId batch (ids, partial) w) as Hins.
    destruct (analyze_batch JSON_parse oracle insert_fails db_row userId batch
                (ids, partial) w) as [[ids1 partial1] w1].
    cbn [fst snd] in Hacc, Hrep, Hw, Hins.
    pose proof (worked_oracle_calls _ _ _ _ Hw) as Hcalls.
    rewrite Nat.add_1_r in Hcalls.
    destruct (IH ids1 partial1 w1) as (Hfst & Hreports & Hworked & Hcount).
    cbv zeta. rewrite Hfst, Hreports, Hcount, Hcalls, Hins, Hrep. cbn [saved length].
    split; [|split; [|split]].
    + destruct (insert_fails (insert_calls w)); inversion Hacc; subst ids1 partial1;
        rewrite <- ?app_assoc; reflexivity.
    + destruct (insert_fails (insert_calls w)); rewrite <- ?app_assoc; reflexivity.
    + apply (worked_trans _ _ _ 1 0 (length rest) 0 Hw Hworked).
    + lia.
Qed.

Lemma analyze_batches_worked userId batches acc w :
  worked w (snd (analyze_batches JSON_parse oracle insert_fails db_row userId batches acc w))
         (length batches) 0.
Proof. destruct acc as [ids partial]. apply analyze_batches_spec. Qed.

(** With a table that refuses every insert, nothing enters the merge. *)
Lemma analyze_batches_none_saved userId batches :
  (forall k, insert_fails k = true) ->
  forall acc w,
    fst (analyze_batches JSON_parse oracle insert_fails db_row userId batches acc w) = acc.
Proof.
  intros Hdown [ids partial] w.
  destruct (analyze_batches_spec userId batches ids partial w) as (Hfst & _).
  unfold kept_ids, kept_results in Hfst.
  rewrite Hfst, !saved_none, !app_nil_r by (intros; apply Hdown). reflexivity.
Qed.

End Runs.
(** ** The merge reducer *)

Section Merging.

Variable JSON_parse : jsstring -> option value.
Variable oracle : nat -> oracle_reply.

Lemma merge_group_worked group w :
  worked w (snd (merge_group JSON_parse oracle group w)) 1 0
  /\ reports (snd (merge_group JSON_parse oracle group w)) = reports w.
Proof.
  unfold merge_group, ask_oracle.
  destruct (oracle (oracle_calls w)); simpl; split;
    first [apply worked_oracle_event | reflexivity].
Qed.

Lemma merge_group_report group w :
  1 <= length group ->
  Forall (fun v => is_report v = true) group ->
  is_report (fst (merge_group JSON_parse oracle group w)) = true.
Proof.
  intros Hne Hrep. unfold merge_group, ask_oracle.
  destruct (oracle (oracle_calls w)); simpl.
  - destruct group as [|x group]; [simpl in Hne; lia|].
    inversion Hrep; subst. assumption.
  - apply safeParseJson_has_all_fields.
Qed.

Lemma merge_groups_spec groups :
  forall merged w,
    length (fst (merge_groups JSON_parse oracle groups merged w))
      = length merged + length groups
    /\ worked w (snd (merge_groups JSON_parse oracle groups merged w)) (length groups) 0
    /\ reports (snd (merge_groups JSON_parse oracle groups merged w)) = reports w.
Proof.
  induction groups as [|group rest IH]; intros merged w; cbn [merge_groups length].
  - split; [simpl; lia|]. split; [apply worked_refl | reflexivity].
  - destruct (merge_group_worked group w) as [Hw Hr].
    destruct (merge_group JSON_parse oracle group w) as [v w1]. simpl in Hw, Hr.
    destruct (IH (merged ++ [v]) w1) as (Hlen & Hw' & Hr').
    split; [rewrite Hlen, length_app; simpl; lia|].
    split; [apply (worked_trans _ _ _ 1 0 (length rest) 0 Hw Hw') | congruence].
Qed.

Lemma merge_groups_reports groups :
  forall merged w,
    Forall (fun v => is_report v = true) merged ->
    Forall (fun g => 1 <= length g /\ Forall (fun v => is_report v = true) g) groups ->
    Forall (fun v => is_report v = true)
           (fst (merge_groups JSON_parse oracle groups merged w)).
Proof.
  induction groups as [|group rest IH]; intros merged w Hm Hg; cbn [merge_groups].
  - exact Hm.
  - inversion Hg as [|g gs [Hne Hrep] Hrest]; subst.
    pose proof (merge_group_report group w Hne Hrep) as Hv.
    destruct (merge_group JSON_parse oracle group w) as [v w1]. simpl in Hv.
    apply IH; [|assumption].
    apply Forall_app. split; [assumption|]. constructor; [assumption | constructor].
Qed.

Variable fan_in : nat.
Hypothesis fan_in_ge_2 : 2 <= fan_in.

(** The reduction with enough fuel: it returns, after [k] rounds where
    [k] is the least exponent with [length jsonList <= fan_in ^ k], and
    what it returns is a report when its inputs are. *)
Lemma mergeReports_fuel_spec :
  forall fuel jsonList w,
    1 <= length jsonList ->
    length jsonList <= fuel ->
    exists k o v w',
      mergeReports_fuel JSON_parse oracle fan_in fuel jsonList w = Some (v, w')
      /\ worked w w' o k
      /\ reports w' = reports w
      /\ length jsonList <= fan_in ^ k
      /\ (forall j, j < k -> fan_in ^ j < length jsonList)
      /\ (Forall (fun v => is_report v = true) jsonList -> is_report v = true).
Proof.
  induction fuel as [|fuel IH]; intros l w Hne Hfuel; [lia|].
  cbn [mergeReports_fuel].
  destruct (Nat.eqb_spec (length l) 1) as [Hone|Hmany].
  - exists 0, 0, (index l 0), w.
    split; [reflexivity|]. split; [apply worked_refl|]. split; [reflexivity|].
    split; [simpl; lia|]. split; [intros j Hj; lia|].
    intros Hrep. destruct l as [|x [|y l]]; simpl in Hone; try lia.
    inversion Hrep; subst. assumption.
  - destruct (chunkArray_spec l fan_in) as
      (groups & Hrun & Hcat & Hlo & Hhi & _ & Hsizes & _); [lia|].
    rewrite Hrun. cbn [mbind option_bind].
    destruct (merge_groups_spec groups [] (log_event RoundStarted w)) as (Hlen & Hw & Hr).
    pose proof (merge_groups_reports groups [] (log_event RoundStarted w)) as Hreps.
    destruct (merge_groups JSON_parse oracle groups [] (log_event RoundStarted w))
      as [merged w1].
    simpl in Hlen, Hw, Hr, Hreps.
    pose proof (worked_trans _ _ _ 0 1 _ 0 (worked_round_event w) Hw) as Hw1.
    assert (Hshrink : length groups < length l) by nia.
    assert (Hreps' : Forall (fun v => is_report v = true) l ->
                     Forall (fun v => is_report v = true) merged).
    { intros Hrep. apply Hreps; [constructor|].
      rewrite <- Hcat in Hrep. apply Forall_concat in Hrep.
      apply Forall_forall. intros g Hg. split.
      - apply (proj1 (Forall_forall _ _) Hsizes g Hg).
      - apply (proj1 (Forall_forall _ _) Hrep g Hg). }
    destruct (Nat.ltb_spec 1 (length merged)) as [Hmore|Hlast].
    + destruct (IH merged w1) as (k & o & v & w' & Hrun' & Hw' & Hr' & Hup & Hdown & Hv);
        [lia | lia |].
      exists (S k), (length groups + o), v, w'.
      split; [exact Hrun'|].
      split; [apply (worked_trans _ _ _ _ 1 o k Hw1 Hw')|].
      split; [congruence|].
      split; [rewrite Nat.pow_succ_r'; nia|].
      split; [|auto].
      intros [|j] Hj; [simpl; lia|].
      rewrite Nat.pow_succ_r'. specialize (Hdown j ltac:(lia)). nia.
    + exists 1, (length groups + 0), (index merged 0), w1.
      split; [reflexivity|].
      split; [apply (worked_trans _ _ _ _ 1 0 0 Hw1 (worked_refl w1))|].
      split; [exact Hr|].
      split; [rewrite Nat.pow_1_r; nia|].
      split; [intros j Hj; assert (j = 0) as -> by lia; simpl; lia|].
      intros Hrep. specialize (Hreps' Hrep).
      destruct merged as [|x merged]; [simpl in Hlen; lia|].
      inversion Hreps'; subst. assumption.
Qed.

Lemma mergeReports_spec jsonList w :
  1 <= length jsonList ->
  exists k o v w',
    mergeReports JSON_parse oracle fan_in jsonList w = Some (v, w')
    /\ worked w w' o k
    /\ reports w' = reports w
    /\ length jsonList <= fan_in ^ k
    /\ (forall j, j < k -> fan_in ^ j < length jsonList)
    /\ (Forall (fun v => is_report v = true) jsonList -> is_report v = true).
Proof. intros Hne. apply mergeReports_fuel_spec; [exact Hne | lia]. Qed.

End Merging.

(** C6. For every fan-in of at least 2, every merge round hands on a
    strictly shorter list: at least two results make ceil(n / fan-in) < n
    groups, and the round returns one result per group. So [mergeReports]
    returns on every non-empty list, after exactly [k] rounds where [k] is
    the least exponent with [n <= fan_in ^ k], that is ceil(log n) in base
    [fan_in]; the handler runs it with [MERGE_BATCH_SIZE = 5]. *)
Theorem mergeReports_terminates_in_log_rounds
    (parse : jsstring -> option value) (oracle : nat -> oracle_reply) (fan_in : nat) :
  2 <= fan_in ->
  (forall (jsonList : list value) (w : World),
      2 <= length jsonList ->
      exists groups,
        chunkArray jsonList fan_in = Some groups
        /\ length groups = (length jsonList + fan_in - 1) / fan_in
        /\ length (fst (merge_groups parse oracle groups [] w)) = length groups
        /\ length groups < length jsonList)
  /\ (forall (jsonList : list value) (w : World),
         1 <= length jsonList ->
         exists k v w',
           mergeReports parse oracle fan_in jsonList w = Some (v, w')
           /\ merge_rounds w' = merge_rounds w + k
           /\ length jsonList <= fan_in ^ k
           /\ (forall j, j < k -> fan_in ^ j < length jsonList)).
Proof.
  intros Hfan. split.
  - intros l w Hlen.
    destruct (chunkArray_spec l fan_in) as (groups & Hrun & _ & Hlo & Hhi & Hdiv & _); [lia|].
    exists groups. split; [exact Hrun|]. split; [exact Hdiv|].
    split; [apply (merge_groups_spec parse oracle groups [] w)|]. nia.
  - intros l w Hne.
    destruct (mergeReports_spec parse oracle fan_in Hfan l w Hne) as
      (k & o & v & w' & Hrun & Hw & _ & Hup & Hdown & _).
    exists k, v, w'. split; [exact Hrun|].
    split; [apply (worked_merge_rounds _ _ _ _ Hw)|]. split; assumption.
Qed.

(** Twenty-six results, fan-in 5: 26 -> 6 -> 2 -> 1, three rounds. *)
Lemma mergeReports_terminates_in_log_rounds_witness :
  2 <= MERGE_BATCH_SIZE
  /\ (exists groups,
        chunkArray (replicate 26 (VObj (fallback_result [] 50))) MERGE_BATCH_SIZE = Some groups
        /\ length groups = 6
        /\ length (fst (merge_groups Json.parse oracle_down groups [] (world_of []))) = 6)
  /\ exists v w',
       mergeReports Json.parse oracle_down MERGE_BATCH_SIZE
         (replicate 26 (VObj (fallback_result [] 50))) (world_of []) = Some (v, w')
       /\ merge_rounds w' = 3
       /\ 26 <= MERGE_BATCH_SIZE ^ 3 /\ MERGE_BATCH_SIZE ^ 2 < 26.
Proof.
  assert (Hfan : 2 <= MERGE_BATCH_SIZE) by (unfold MERGE_BATCH_SIZE; lia).
  split; [exact Hfan|].
  pose proof (mergeReports_terminates_in_log_rounds Json.parse oracle_down
                MERGE_BATCH_SIZE Hfan) as [Hround Hall].
  split.
  - destruct (Hround (replicate 26 (VObj (fallback_result [] 50))) (world_of []))
      as (groups & Hrun & Hlen & Hmerged & _).
    { rewrite length_replicate. lia. }
    exists groups. split; [exact Hrun|].
    rewrite Hmerged, Hlen, length_replicate. split; reflexivity.
  - destruct (Hall (replicate 26 (VObj (fallback_result [] 50))) (world_of []))
      as (k & v & w' & Hrun & Hrounds & Hup & Hdown).
    { rewrite length_replicate. lia. }
    exists v, w'. split; [exact Hrun|].
    assert (Hk : merge_rounds w' = 3).
    { vm_compute in Hrun. injection Hrun as _ <-. reflexivity. }
    split; [exact Hk|]. vm_compute. split; lia.
Defined.

(** C9. On a list of one result [mergeReports] returns that result as it
    is, and the world is the same: no oracle call, no repair, no round. *)
Theorem mergeReports_single_is_identity
    (parse : jsstring -> option value) (oracle : nat -> oracle_reply) (fan_in : nat)
    (result : value) (w : World) :
  mergeReports parse oracle fan_in [result] w = Some (result, w).
Proof. reflexivity. Qed.


(** *** The merge in closed form *)

Section MergeTurns.

Variable JSON_parse : jsstring -> option value.
Variable oracle : nat -> oracle_reply.

Lemma merge_group_eq group w :
  merge_group JSON_parse oracle group w
  = (group_result JSON_parse oracle (oracle_calls w) group, log_event OracleCalled w).
Proof.
  unfold merge_group, ask_oracle, group_result.
  destruct (oracle (oracle_calls w)); reflexivity.
Qed.



Lemma merge_groups_insert_calls groups :
  forall merged w,
    insert_calls (snd (merge_groups JSON_parse oracle groups merged w)) = insert_calls w.
Proof.
  induction groups as [|group rest IH]; intros merged w; cbn [merge_groups]; [reflexivity|].
  rewrite merge_group_eq, IH, insert_calls_log_event. simpl. lia.
Qed.

Lemma mergeReports_fuel_insert_calls fan_in :
  forall fuel jsonList w v w',
    mergeReports_fuel JSON_parse oracle fan_in fuel jsonList w = Some (v, w') ->
    insert_calls w' = insert_calls w.
Proof.
  induction fuel as [|fuel IH]; intros l w v w' Hrun; [discriminate Hrun|].
  cbn [mergeReports_fuel] in Hrun.
  destruct (length l =? 1); [injection Hrun as _ <-; reflexivity|].
  destruct (chunkArray l fan_in) as [groups|]; [|discriminate Hrun].
  cbn [mbind option_bind] in Hrun.
  pose proof (merge_groups_insert_calls groups [] (log_event RoundStarted w)) as Hins.
  destruct (merge_groups JSON_parse oracle groups [] (log_event RoundStarted w))
    as [merged w1].
  cbn [snd] in Hins. rewrite insert_calls_log_event in Hins. simpl in Hins.
  destruct (1 <? length merged).
  - rewrite (IH _ _ _ _ Hrun). lia.
  - injection Hrun as _ <-. lia.
Qed.

Lemma mergeReports_insert_calls fan_in jsonList w v w' :
  mergeReports JSON_parse oracle fan_in jsonList w = Some (v, w') ->
  insert_calls w' = insert_calls w.
Proof. apply mergeReports_fuel_insert_calls. Qed.

End MergeTurns.

(** ** The credit ledger and the handler *)

Lemma mergeReports_nil parse oracle fan_in w :
  mergeReports parse oracle fan_in [] w = Some (VUndefined, log_event RoundStarted w).
Proof. reflexivity. Qed.

(** The world after a charge. *)
Lemma charged_world userId amount balance w :
  let w1 := log_event (Charged userId amount) (set_credits userId (balance - amount) w) in
  oracle_calls w1 = oracle_calls w
  /\ insert_calls w1 = insert_calls w
  /\ reports w1 = reports w
  /\ profiles w1 = <[userId := (balance - amount)%Z]> (profiles w)
  /\ log w1 = log w ++ [Charged userId amount].
Proof.
  cbv zeta. unfold oracle_calls, insert_calls. cbn [log log_event set_credits reports profiles].
  rewrite !count_app. simpl. repeat split; lia.
Qed.

(** Step 1 when its calls go through: the balance decides. *)
Lemma reserve_answers calls userId amount w balance :
  ledger_answers calls = true ->
  profiles w !! userId = Some balance ->
  reserve calls userId amount w =
  if (balance <? amount)%Z then (inl NotEnoughCredits, w)
  else (inr (Some (balance - amount)%Z),
        log_event (Charged userId amount) (set_credits userId (balance - amount) w)).
Proof.
  unfold ledger_answers, reserve, decrement_credits. intros Hup Hbal. rewrite Hbal.
  destruct (rpc_goes calls); [| discriminate Hup |].
  - apply andb_true_iff in Hup as [Hsel Hupd].
    apply negb_true_iff in Hsel, Hupd. rewrite Hsel, Hupd. reflexivity.
  - destruct (Z.ltb_spec balance amount), (Z.leb_spec amount balance);
      try reflexivity; lia.
Qed.

(** Step 1 hands on a balance only after the exact charge. *)
Lemma reserve_charges calls userId amount w newBalance w1 :
  reserve calls userId amount w = (inr newBalance, w1) ->
  ledger_answers calls = true
  /\ exists balance,
       profiles w !! userId = Some balance
       /\ (amount <= balance)%Z
       /\ newBalance = Some (balance - amount)%Z
       /\ w1 = log_event (Charged userId amount) (set_credits userId (balance - amount) w).
Proof.
  unfold ledger_answers, reserve, decrement_credits.
  destruct (rpc_goes calls); [| discriminate |].
  - destruct (byhand_select_fails calls); [discriminate|].
    destruct (profiles w !! userId) as [balance|]; [|discriminate].
    destruct (Z.ltb_spec balance amount); [discriminate|].
    destruct (byhand_update_fails calls); [discriminate|].
    intros [= <- <-]. split; [reflexivity|]. exists balance. repeat split. lia.
  - destruct (profiles w !! userId) as [balance|]; [|discriminate].
    destruct (Z.leb_spec amount balance); [|discriminate].
    intros [= <- <-]. split; [reflexivity|]. exists balance. repeat split. lia.
Qed.

(** Step 1 answers by itself without a charge, and why. *)
Lemma reserve_refuses calls userId amount w answer w1 :
  reserve calls userId amount w = (inl answer, w1) ->
  w1 = w
  /\ match answer with
     | NotEnoughCredits =>
         rpc_goes calls = RpcFails
         \/ (rpc_goes calls = RpcRuns
             /\ forall balance, profiles w !! userId = Some balance -> (balance < amount)%Z)
         \/ (rpc_goes calls = RpcThrows /\ byhand_select_fails calls = false
             /\ exists balance, profiles w !! userId = Some balance /\ (balance < amount)%Z)
     | UserNotFound =>
         rpc_goes calls = RpcThrows
         /\ (byhand_select_fails calls = true \/ profiles w !! userId = None)
     | AnalysisFailed =>
         rpc_goes calls = RpcThrows /\ byhand_select_fails calls = false
         /\ byhand_update_fails calls = true
         /\ exists balance, profiles w !! userId = Some balance /\ (amount <= balance)%Z
     | _ => False
     end.
Proof.
  unfold reserve, decrement_credits.
  destruct (rpc_goes calls).
  - destruct (byhand_select_fails calls); [intros [= <- <-]; auto|].
    destruct (profiles w !! userId) as [balance|]; [|intros [= <- <-]; auto].
    destruct (Z.ltb_spec balance amount); [intros [= <- <-]; split; eauto 10|].
    destruct (byhand_update_fails calls); [|discriminate].
    intros [= <- <-]. split; [reflexivity|]. repeat split. eauto.
  - intros [= <- <-]. auto.
  - destruct (profiles w !! userId) as [balance|].
    + destruct (Z.leb_spec amount balance); [discriminate|].
      intros [= <- <-]. split; [reflexivity|]. right. left. split; [reflexivity|].
      intros b [= <-]. assumption.
    + intros [= <- <-]. split; [reflexivity|]. right. left. split; [reflexivity|].
      intros b Hb. discriminate Hb.
Qed.

(** The update by hand fails: the read of its result throws. *)
Lemma reserve_update_fails calls userId amount w balance :
  rpc_goes calls = RpcThrows ->
  byhand_select_fails calls = false ->
  byhand_update_fails calls = true ->
  profiles w !! userId = Some balance ->
  (amount <= balance)%Z ->
  reserve calls userId amount w = (inl AnalysisFailed, w).
Proof.
  intros Hrpc Hsel Hupd Hbal Hle. unfold reserve. rewrite Hrpc, Hsel, Hupd, Hbal.
  destruct (Z.ltb_spec balance amount); [lia | reflexivity].
Qed.

Lemma final_row_report userId r ids :
  final_row userId (VObj r) ids =
  Some (final_columns userId (get_prop k_total_emails r) (get_prop k_summary r)
          (get_prop k_classification r) (get_prop k_highlights r) ids).
Proof. reflexivity. Qed.

Lemma batch_count_spec {A} (l : list A) batches :
  chunkArray l BATCH_SIZE = Some batches -> length batches = batch_count (length l).
Proof.
  intros Hrun.
  destruct (chunkArray_spec l BATCH_SIZE) as (bs & Hrun' & _ & _ & _ & Hdiv & _);
    [unfold BATCH_SIZE; lia|].
  rewrite Hrun in Hrun'. injection Hrun' as ->. exact Hdiv.
Qed.

Section Handler.

Variable JSON_parse : jsstring -> option value.
Variable oracle : nat -> oracle_reply.
Variable insert_fails : nat -> bool.
Variable db_row : nat -> report_row.
Variable calls : ledger_calls.
Variable CREDITS_PER_EMAIL : Z.

(** Steps 2 to 5, once the credits are reserved: the answer, by what the
    batch loop kept. *)
Lemma analyzev2_reserved userId emails w balance :
  userId <> EmptyString ->
  emails <> [] ->
  ledger_answers calls = true ->
  profiles w !! userId = Some balance ->
  (Z.of_nat (length emails) * CREDITS_PER_EMAIL <= balance)%Z ->
  let amount := (Z.of_nat (length emails) * CREDITS_PER_EMAIL)%Z in
  let w1 := log_event (Charged userId amount) (set_credits userId (balance - amount) w) in
  let run := analyzev2 JSON_parse oracle insert_fails db_row calls true CREDITS_PER_EMAIL
               userId emails w in
  exists batches w2,
    chunkArray emails BATCH_SIZE = Some batches
    /\ length batches = batch_count (length emails)
    /\ 1 <= length batches
    /\ worked w1 w2 (length batches) 0
    /\ insert_calls w2 = insert_calls w + length batches
    /\ reports w2 = reports w ++ kept_rows JSON_parse oracle insert_fails db_row userId
                                   (oracle_calls w) (insert_calls w) batches
    /\ let ids := kept_ids insert_fails db_row (oracle_calls w) (insert_calls w) batches in
       let partial := kept_results JSON_parse oracle insert_fails
                        (oracle_calls w) (insert_calls w) batches in
       match partial with
       | [] => run = Some (AnalysisFailed, log_event RoundStarted w2)
       | _ :: _ =>
           exists r w3 o rounds,
             mergeReports JSON_parse oracle MERGE_BATCH_SIZE partial w2 = Some (VObj r, w3)
             /\ has_all_fields r = true
             /\ worked w2 w3 o rounds
             /\ reports w3 = reports w2
             /\ run =
                Some (if insert_fails (insert_calls w + length batches)
                      then (FinalSaveFailed, log_event (InsertTried false) w3)
                      else (Ok (Some (balance - amount)%Z) (length emails) ids
                              (row_id (db_row (insert_calls w + length batches))) (VObj r),
                            log_event (InsertTried true)
                              {| profiles := profiles w3;
                                 reports := reports w3 ++
                                   [final_columns userId (get_prop k_total_emails r)
                                      (get_prop k_summary r) (get_prop k_classification r)
                                      (get_prop k_highlights r) ids
                                      (db_row (insert_calls w + length batches))];
                                 log := log w3 |}))
       end.
Proof.
  intros Huser Hemails Hup Hbal Hle amount w1 run.
  destruct (charged_world userId amount balance w) as (Hc1 & Hk1 & Hrep1 & Hprof1 & Hlog1).
  fold w1 in Hc1, Hk1, Hrep1, Hprof1, Hlog1.
  destruct (chunkArray_spec emails BATCH_SIZE) as
    (batches & Hrun & _ & Hlo & _); [unfold BATCH_SIZE; lia|].
  assert (Hbatches : 1 <= length batches).
  { destruct emails; [congruence|]. destruct batches; simpl in Hlo |- *; lia. }
  assert (Hres : reserve calls userId amount w = (inr (Some (balance - amount)%Z), w1)).
  { rewrite (reserve_answers calls userId amount w balance Hup Hbal).
    destruct (Z.ltb_spec balance amount); [unfold amount in *; lia | reflexivity]. }
  destruct (analyze_batches_spec JSON_parse oracle insert_fails db_row userId batches [] [] w1)
    as (Hfst & Hreports & Hworked & Hcount).
  cbv zeta in Hfst, Hreports, Hworked, Hcount.
  rewrite Hc1, Hk1 in Hfst, Hreports. rewrite Hk1 in Hcount. rewrite Hrep1 in Hreports.
  simpl app in Hfst.
  assert (Heq : run =
            let '((miniReportIds, partialJsons), w2) :=
              analyze_batches JSON_parse oracle insert_fails db_row userId batches ([], []) w1 in
            '(finalJson, w3) ← mergeReports JSON_parse oracle MERGE_BATCH_SIZE partialJsons w2;
            match final_row userId finalJson miniReportIds with
            | None => Some (AnalysisFailed, w3)
            | Some columns =>
                let '(insertedFinal, w4) := insert_report insert_fails db_row columns w3 in
                match insertedFinal with
                | None => Some (FinalSaveFailed, w4)
                | Some row =>
                    Some (Ok (creditsLeft_of calls userId (Some (balance - amount)%Z) w4)
                            (length emails) miniReportIds (row_id row) finalJson, w4)
                end
            end).
  { unfold run, analyzev2.
    rewrite (bool_decide_eq_false_2 _ Huser), (bool_decide_eq_false_2 _ Hemails).
    cbn [orb negb]. fold amount. rewrite Hres, Hrun. reflexivity. }
  destruct (analyze_batches JSON_parse oracle insert_fails db_row userId batches ([], []) w1)
    as [[ids partial] w2].
  cbn [fst snd] in Hfst, Hreports, Hworked, Hcount. injection Hfst as -> ->.
  exists batches, w2.
  split; [exact Hrun|]. split; [apply (batch_count_spec emails), Hrun|].
  split; [exact Hbatches|]. split; [exact Hworked|]. split; [exact Hcount|].
  split; [exact Hreports|]. cbv zeta.
  pose proof (saved_Forall insert_fails (fun v => is_report v = true)
                (fun c' (_ : nat) b => VObj (batch_result JSON_parse oracle c' b)) batches
                (fun c k b => safeParseJson_has_all_fields JSON_parse _ _)
                (oracle_calls w) (insert_calls w)) as Hreps.
  fold (kept_results JSON_parse oracle insert_fails (oracle_calls w) (insert_calls w) batches)
    in Hreps.
  destruct (kept_results JSON_parse oracle insert_fails (oracle_calls w) (insert_calls w)
              batches) as [|p partial] eqn:Hpartial.
  - rewrite Heq, mergeReports_nil. reflexivity.
  - assert (Hfan : 2 <= MERGE_BATCH_SIZE) by (unfold MERGE_BATCH_SIZE; lia).
    destruct (mergeReports_spec JSON_parse oracle MERGE_BATCH_SIZE Hfan (p :: partial) w2) as
      (rounds & o & v & w3 & Hmerge & Hw3 & Hr3 & _ & _ & Hv); [simpl; lia|].
    specialize (Hv Hreps). destruct v as [| | | | | |r]; try discriminate Hv.
    exists r, w3, o, rounds.
    split; [exact Hmerge|]. split; [exact Hv|]. split; [exact Hw3|]. split; [exact Hr3|].
    rewrite Heq, Hmerge. cbn [mbind option_bind]. rewrite final_row_report.
    rewrite insert_report_eq.
    rewrite (mergeReports_insert_calls _ _ _ _ _ _ _ Hmerge), Hcount.
    destruct (insert_fails (insert_calls w + length batches)); [reflexivity|].
    do 3 f_equal.
    unfold creditsLeft_of. cbn [profiles log_event final_columns row_id].
    destruct Hw3 as [Hp3 _]. destruct Hworked as [Hp2 _].
    rewrite Hp3, Hp2, Hprof1, lookup_insert_eq.
    destruct (final_select_fails calls); reflexivity.
Qed.

End Handler.

Section HandlerCases.

Variable JSON_parse : jsstring -> option value.
Variable oracle : nat -> oracle_reply.
Variable insert_fails : nat -> bool.
Variable db_row : nat -> report_row.
Variable calls : ledger_calls.
Variable supabase_configured : bool.
Variable CREDITS_PER_EMAIL : Z.

(** The four ways of a request through the handler. *)
Lemma analyzev2_cases userId emails w :
  let amount := (Z.of_nat (length emails) * CREDITS_PER_EMAIL)%Z in
  let run := analyzev2 JSON_parse oracle insert_fails db_row calls supabase_configured
               CREDITS_PER_EMAIL userId emails w in
  ((userId = EmptyString \/ emails = []) /\ run = Some (BadRequest, w))
  \/ (userId <> EmptyString /\ emails <> [] /\ supabase_configured = false
      /\ run = Some (NotConfigured, w))
  \/ (userId <> EmptyString /\ emails <> [] /\ supabase_configured = true
      /\ exists answer,
           reserve calls userId amount w = (inl answer, w)
           /\ run = Some (answer, w))
  \/ (userId <> EmptyString /\ emails <> [] /\ supabase_configured = true
      /\ ledger_answers calls = true
      /\ exists balance,
           profiles w !! userId = Some balance
           /\ (amount <= balance)%Z
           /\ reserve calls userId amount w =
                (inr (Some (balance - amount)%Z),
                 log_event (Charged userId amount) (set_credits userId (balance - amount) w))).
Proof.
  intros amount run.
  destruct (decide (userId = EmptyString)) as [Huser|Huser].
  { left. split; [auto|]. unfold run, analyzev2.
    rewrite (bool_decide_eq_true_2 _ Huser). reflexivity. }
  destruct (decide (emails = [])) as [Hemails|Hemails].
  { left. split; [auto|]. unfold run, analyzev2.
    rewrite (bool_decide_eq_true_2 _ Hemails), orb_true_r. reflexivity. }
  right. destruct supabase_configured eqn:Hconf.
  2: { left. repeat split; try assumption. unfold run, analyzev2.
   rewrite (bool_decide_eq_false_2 _ Huser), (bool_decide_eq_false_2 _ Hemails).
       reflexivity. }
  right. destruct (reserve calls userId amount w) as [[answer|newBalance] w1] eqn:Hres.
  - left. repeat split; try assumption.
    destruct (reserve_refuses _ _ _ _ _ _ Hres) as [-> _].
    exists answer. split; [reflexivity|]. unfold run, analyzev2.
    rewrite (bool_decide_eq_false_2 _ Huser), (bool_decide_eq_false_2 _ Hemails).
    cbn [orb negb]. fold amount. rewrite Hres. reflexivity.
  - right. destruct (reserve_charges _ _ _ _ _ _ Hres) as (Hup & balance & Hbal & Hle & -> & ->).
    repeat split; try assumption. exists balance. repeat split; assumption.
Qed.

End HandlerCases.

(** What an answer with a report says of the run. *)
Lemma analyzev2_ok_inv
    parse oracle insert_fails db_row calls supabase_configured cost userId emails w
    creditsLeft total ids fid final w' :
  analyzev2 parse oracle insert_fails db_row calls supabase_configured cost userId emails w
    = Some (Ok creditsLeft total ids fid final, w') ->
  let amount := (Z.of_nat (length emails) * cost)%Z in
  exists balance batches r w2 w3,
    userId <> EmptyString
    /\ profiles w !! userId = Some balance
    /\ (amount <= balance)%Z
    /\ chunkArray emails BATCH_SIZE = Some batches
    /\ 1 <= length batches
    /\ insert_fails (insert_calls w + length batches) = false
    /\ ids = kept_ids insert_fails db_row (oracle_calls w) (insert_calls w) batches
    /\ ids <> []
    /\ final = VObj r
    /\ has_all_fields r = true
    /\ oracle_calls w2 = oracle_calls w + length batches
    /\ mergeReports parse oracle MERGE_BATCH_SIZE
         (kept_results parse oracle insert_fails (oracle_calls w) (insert_calls w) batches) w2
       = Some (VObj r, w3)
    /\ creditsLeft = Some (balance - amount)%Z
    /\ total = length emails
    /\ fid = row_id (db_row (insert_calls w + length batches))
    /\ reports w' =
         reports w ++ kept_rows parse oracle insert_fails db_row userId
                        (oracle_calls w) (insert_calls w) batches
         ++ [final_columns userId (get_prop k_total_emails r) (get_prop k_summary r)
               (get_prop k_classification r) (get_prop k_highlights r) ids
               (db_row (insert_calls w + length batches))]
    /\ profiles w' = <[userId := (balance - amount)%Z]> (profiles w).
Proof.
  intros H amount.
  destruct (analyzev2_cases parse oracle insert_fails db_row calls supabase_configured cost
              userId emails w) as
    [[_ Hrun] | [(_ & _ & _ & Hrun) | [(_ & _ & _ & answer & Hres & Hrun)
     | (Huser & Hemails & Hconf & Hup & balance & Hbal & Hle & Hres)]]];
    cbv zeta in *; try (rewrite Hrun in H; discriminate H).
  { rewrite Hrun in H. injection H as -> _.
    apply reserve_refuses in Hres as [_ []]. }
  subst supabase_configured.
  destruct (analyzev2_reserved parse oracle insert_fails db_row calls cost userId emails w
              balance Huser Hemails Hup Hbal Hle) as
    (batches & w2 & Hchunk & _ & Hne & Hw2 & Hk2 & Hrep2 & Hrun).
  cbv zeta in Hrun. fold amount in Hrun, Hw2.
  pose proof (saved_same_length insert_fails
                (fun (_ : nat) k' (_ : list email) => row_id (db_row k'))
                (fun c' (_ : nat) b => VObj (batch_result parse oracle c' b)) batches
                (oracle_calls w) (insert_calls w)) as Hlen.
  fold (kept_ids insert_fails db_row (oracle_calls w) (insert_calls w) batches) in Hlen.
  fold (kept_results parse oracle insert_fails (oracle_calls w) (insert_calls w) batches)
    in Hlen.
  destruct (kept_results parse oracle insert_fails (oracle_calls w) (insert_calls w) batches)
    as [|p partial] eqn:Hpartial.
  { rewrite Hrun in H. discriminate H. }
  destruct Hrun as (r & w3 & o & rounds & Hmerge & Hfields & Hw3 & Hrep3 & Hrun).
  rewrite Hrun in H.
  destruct (insert_fails (insert_calls w + length batches)) eqn:Hins; [discriminate H|].
  injection H as <- <- <- <- <- <-.
  exists balance, batches, r, w2, w3.
  destruct (charged_world userId amount balance w) as (Hc1 & _ & _ & Hprof1 & _).
  cbv zeta in Hc1, Hprof1.
  split; [exact Huser|]. split; [exact Hbal|]. split; [exact Hle|].
  split; [exact Hchunk|]. split; [exact Hne|]. split; [exact Hins|].
  split; [reflexivity|].
  split; [intros Hnil; rewrite Hnil in Hlen; discriminate Hlen|].
  split; [reflexivity|]. split; [exact Hfields|].
  split; [rewrite (worked_oracle_calls _ _ _ _ Hw2), Hc1; reflexivity|].
  split; [rewrite Hpartial; exact Hmerge|].
  split; [reflexivity|]. split; [reflexivity|]. split; [reflexivity|].
  split.
  - cbn [reports log_event]. rewrite Hrep3, Hrep2, <- app_assoc. reflexivity.
  - cbn [profiles log_event]. destruct Hw3 as [-> _]. destruct Hw2 as [-> _]. exact Hprof1.
Qed.

Section Reserved.

Variable JSON_parse : jsstring -> option value.
Variable oracle : nat -> oracle_reply.
Variable insert_fails : nat -> bool.
Variable db_row : nat -> report_row.
Variable calls : ledger_calls.
Variable CREDITS_PER_EMAIL : Z.

(** Once the credits are reserved the handler answers, and nothing else
    happens to the ledger. *)
Lemma analyzev2_reserved_worked userId emails w balance :
  userId <> EmptyString ->
  emails <> [] ->
  ledger_answers calls = true ->
  profiles w !! userId = Some balance ->
  (Z.of_nat (length emails) * CREDITS_PER_EMAIL <= balance)%Z ->
  let amount := (Z.of_nat (length emails) * CREDITS_PER_EMAIL)%Z in
  exists r w' o rounds,
    analyzev2 JSON_parse oracle insert_fails db_row calls true CREDITS_PER_EMAIL
      userId emails w = Some (r, w')
    /\ worked (log_event (Charged userId amount) (set_credits userId (balance - amount) w))
              w' o rounds
    /\ (r = AnalysisFailed /\ no_mini_saved insert_fails (insert_calls w) (length emails)
        \/ (~ no_mini_saved insert_fails (insert_calls w) (length emails)
            /\ (r = FinalSaveFailed
                /\ insert_fails (insert_calls w + batch_count (length emails)) = true
                \/ insert_fails (insert_calls w + batch_count (length emails)) = false
                   /\ exists ids fid final,
                        r = Ok (Some (balance - amount)%Z) (length emails) ids fid final))).
Proof.
  intros Huser Hemails Hup Hbal Hle amount.
  destruct (analyzev2_reserved JSON_parse oracle insert_fails db_row calls CREDITS_PER_EMAIL
              userId emails w balance Huser Hemails Hup Hbal Hle) as
    (batches & w2 & Hchunk & Hcount & Hne & Hw2 & Hk2 & Hrep2 & Hrun).
  cbv zeta in Hrun. fold amount in Hrun, Hw2.
  destruct (kept_results JSON_parse oracle insert_fails (oracle_calls w) (insert_calls w)
              batches) as [|p partial] eqn:Hpartial.
  - exists AnalysisFailed, (log_event RoundStarted w2), (length batches + 0), (0 + 1).
    split; [exact Hrun|].
    split; [apply (worked_trans _ _ _ _ 0 0 1 Hw2 (worked_round_event w2))|].
    left. split; [reflexivity|]. unfold no_mini_saved. rewrite <- Hcount.
    apply (saved_nil_inv _ _ _ _ _ Hpartial).
  - destruct Hrun as (r & w3 & o & rounds & Hmerge & Hfields & Hw3 & Hrep3 & Hrun).
    pose proof (worked_trans _ _ _ _ _ _ _ Hw2 Hw3) as Hw13.
    assert (Hsome : ~ no_mini_saved insert_fails (insert_calls w) (length emails)).
    { unfold no_mini_saved. rewrite <- Hcount. intros Hnone.
      unfold kept_results in Hpartial. rewrite saved_none in Hpartial by exact Hnone.
      discriminate Hpartial. }
    rewrite <- Hcount.
    destruct (insert_fails (insert_calls w + length batches)).
    + exists FinalSaveFailed, (log_event (InsertTried false) w3). do 2 eexists.
      split; [exact Hrun|]. split.
      { apply (worked_trans _ _ _ _ _ 0 0 Hw13).
        split; [reflexivity|]. exists [InsertTried false]. repeat split. }
      right. split; [exact Hsome | left; split; reflexivity].
    + do 4 eexists. split; [exact Hrun|]. split.
      { apply (worked_trans _ _ _ _ _ 0 0 Hw13).
        split; [reflexivity|]. exists [InsertTried true]. repeat split. }
      right. split; [exact Hsome | right; eauto].
Qed.

End Reserved.

(** C2, as amended. For an account that exists and a request that passes
    validation, with amount = number of records * cost per record.
    When the calls of the reservation go through (the procedure runs, or its
    call throws and the select and the update by hand succeed), the balance
    decides: below the amount, the handler answers "Not enough credits" and
    the world is untouched (same balance, no oracle call, no insert);
    otherwise the reservation returns old - amount as the new balance, the
    balance is old - amount from then on, the charge is the only thing that
    has happened so far (no oracle call yet), and the handler answers with
    that balance in place. When the calls do not go through, nothing is
    charged and nothing else is done, whatever the balance: a call of the
    procedure that comes back with an error is answered "Not enough
    credits", a failed select by hand "User not found", and a failed update
    by hand ends in the outer catch. So an amount above the balance is never
    reserved, and is refused with one of the first two answers. *)
Theorem reserve_contract
    (parse : jsstring -> option value) (oracle : nat -> oracle_reply)
    (insert_fails : nat -> bool) (db_row : nat -> report_row) (calls : ledger_calls)
    (cost : Z) (userId : string) (emails : list email) (w : World) (balance : Z) :
  profiles w !! userId = Some balance ->
  userId <> EmptyString ->
  emails <> [] ->
  let amount := (Z.of_nat (length emails) * cost)%Z in
  let run := analyzev2 parse oracle insert_fails db_row calls true cost userId emails w in
  (ledger_answers calls = true ->
     if (balance <? amount)%Z then
       reserve calls userId amount w = (inl NotEnoughCredits, w)
       /\ run = Some (NotEnoughCredits, w)
     else
       exists w1,
         reserve calls userId amount w = (inr (Some (balance - amount)%Z), w1)
         /\ profiles w1 = <[userId := (balance - amount)%Z]> (profiles w)
         /\ log w1 = log w ++ [Charged userId amount]
         /\ oracle_calls w1 = oracle_calls w
         /\ exists r w',
              run = Some (r, w')
              /\ profiles w' !! userId = Some (balance - amount)%Z)
  /\ (ledger_answers calls = false ->
        let answer :=
          match rpc_goes calls with
          | RpcFails => NotEnoughCredits
          | _ => if byhand_select_fails calls then UserNotFound
                 else if (balance <? amount)%Z then NotEnoughCredits
                 else AnalysisFailed
          end in
        reserve calls userId amount w = (inl answer, w)
        /\ run = Some (answer, w))
  /\ ((balance < amount)%Z ->
        exists answer,
          reserve calls userId amount w = (inl answer, w)
          /\ run = Some (answer, w)
          /\ (answer = NotEnoughCredits \/ answer = UserNotFound)).
Proof.
  intros Hbal Huser Hemails amount run.
  assert (Hrefused : forall answer,
            reserve calls userId amount w = (inl answer, w) -> run = Some (answer, w)).
  { intros answer Hres. unfold run, analyzev2.
    rewrite (bool_decide_eq_false_2 _ Huser), (bool_decide_eq_false_2 _ Hemails).
    cbn [orb negb]. fold amount. rewrite Hres. reflexivity. }
  assert (Hdown : ledger_answers calls = false ->
            reserve calls userId amount w =
            (inl match rpc_goes calls with
                 | RpcFails => NotEnoughCredits
                 | _ => if byhand_select_fails calls then UserNotFound
                        else if (balance <? amount)%Z then NotEnoughCredits
                        else AnalysisFailed
                 end, w)).
  { unfold ledger_answers, reserve. rewrite Hbal.
    destruct (rpc_goes calls); [| reflexivity | discriminate].
    destruct (byhand_select_fails calls); [reflexivity|].
    destruct (byhand_update_fails calls); [|discriminate].
    destruct (balance <? amount)%Z; reflexivity. }
  split; [|split].
  - intros Hup. pose proof (reserve_answers calls userId amount w balance Hup Hbal) as Hres.
    destruct (Z.ltb_spec balance amount) as [Hlt|Hle].
    + split; [exact Hres | apply Hrefused, Hres].
    + eexists. split; [exact Hres|].
      destruct (charged_world userId amount balance w) as (Hc1 & _ & _ & Hprof1 & Hlog1).
      split; [exact Hprof1|]. split; [exact Hlog1|]. split; [exact Hc1|].
      destruct (analyzev2_reserved_worked parse oracle insert_fails db_row calls cost
                  userId emails w balance Huser Hemails Hup Hbal Hle) as
        (r & w' & o & rounds & Hrun & [Hprof _] & _).
      exists r, w'. split; [exact Hrun|].
      fold amount in Hprof. rewrite Hprof.
      cbn [profiles log_event set_credits]. apply lookup_insert_eq.
  - intros Hno. cbv zeta. split; [apply Hdown, Hno | apply Hrefused, Hdown, Hno].
  - intros Hlt. destruct (ledger_answers calls) eqn:Hup.
    + pose proof (reserve_answers calls userId amount w balance Hup Hbal) as Hres.
      destruct (Z.ltb_spec balance amount); [|lia].
      exists NotEnoughCredits. split; [exact Hres|]. split; [apply Hrefused, Hres | auto].
    + eexists. split; [apply Hdown; reflexivity|].
      split; [apply Hrefused, Hdown; reflexivity|].
      destruct (rpc_goes calls); auto;
        destruct (byhand_select_fails calls); auto;
        destruct (Z.ltb_spec balance amount); auto; lia.
Qed.

(** The scenario of the design document: balance 5, ten records at cost 1;
    and a request that the balance covers, reserved by hand. *)
Lemma reserve_contract_witness :
  analyzev2 Json.parse oracle_down storage_up rows_from_100 by_procedure true 1 "u1"
    (replicate 10 an_email) (world_of [("u1"%string, 5%Z)])
  = Some (NotEnoughCredits, world_of [("u1"%string, 5%Z)])
  /\ exists w1,
       reserve by_hand "u1" 120 (world_of [("u1"%string, 200%Z)]) = (inr (Some 80%Z), w1)
       /\ profiles w1 !! "u1"%string = Some 80%Z.
Proof.
  split.
  - pose proof (reserve_contract Json.parse oracle_down storage_up rows_from_100 by_procedure
                  1 "u1" (replicate 10 an_email) (world_of [("u1"%string, 5%Z)]) 5 eq_refl)
      as H.
    destruct H as (Hup & _); [discriminate | discriminate |].
    apply (Hup eq_refl).
  - pose proof (reserve_contract Json.parse oracle_down storage_up rows_from_100 by_hand
                  1 "u1" (replicate 120 an_email) (world_of [("u1"%string, 200%Z)]) 200
                  eq_refl) as H.
    destruct H as (Hup & _); [discriminate | discriminate |].
    destruct (Hup eq_refl) as (w1 & Hres & Hprof & _).
    exists w1. split; [exact Hres|]. rewrite Hprof. reflexivity.
Defined.

(** C2, as stated, fails: the balance is 200 and ten records cost 10, but
    the call of the procedure comes back with an error (the procedure is
    missing), which line 545 answers "Not enough credits"; nothing is
    reserved and the balance stays at 200. *)
Lemma reserve_refuses_covered_amount :
  profiles (world_of [("u1"%string, 200%Z)]) !! "u1"%string = Some 200%Z
  /\ (Z.of_nat (length (replicate 10 an_email)) * 1 <= 200)%Z
  /\ reserve procedure_missing "u1" 10 (world_of [("u1"%string, 200%Z)])
     = (inl NotEnoughCredits, world_of [("u1"%string, 200%Z)])
  /\ analyzev2 Json.parse oracle_down storage_up rows_from_100 procedure_missing true 1 "u1"
       (replicate 10 an_email) (world_of [("u1"%string, 200%Z)])
     = Some (NotEnoughCredits, world_of [("u1"%string, 200%Z)]).
Proof. repeat split. vm_compute. discriminate. Qed.

(** C3, as amended. A batch whose mini-report cannot be saved is dropped
    from the provenance and from the merge alike. In one turn of the loop
    the two lists are left as they were when the save fails, and grow
    together, by the id that the database gave and by the repaired result,
    when it succeeds. Over the whole loop the ids recorded and the results
    kept for the merge are those of the batches whose save succeeded, in the
    order of the batches, one result per id: a result is kept if and only if
    it is the repaired reply to a batch whose save succeeded. Whatever the
    saves do, the loop goes through every batch, one oracle call each. And the final report of
    an answer is what [mergeReports] makes of exactly these results, with
    exactly these ids as its provenance. *)
Theorem failed_save_drops_batch_from_merge
    (parse : jsstring -> option value) (oracle : nat -> oracle_reply)
    (insert_fails : nat -> bool) (db_row : nat -> report_row) (userId : string) :
  (forall (batch : list email) (ids partial : list value) (w : World),
      fst (analyze_batch parse oracle insert_fails db_row userId batch (ids, partial) w) =
      if insert_fails (insert_calls w) then (ids, partial)
      else (ids ++ [row_id (db_row (insert_calls w))],
            partial ++ [VObj (safeParseJson parse (raw_reply oracle w) (length batch))]))
  /\ (forall (batches : list (list email)) (w : World),
         let res := analyze_batches parse oracle insert_fails db_row userId batches
                      ([], []) w in
         fst res =
           (kept_ids insert_fails db_row (oracle_calls w) (insert_calls w) batches,
            kept_results parse oracle insert_fails (oracle_calls w) (insert_calls w) batches)
         /\ oracle_calls (snd res) = oracle_calls w + length batches
         /\ length (fst (fst res)) = length (snd (fst res)))
  /\ (forall (c k : nat) (batch : list email) (rest : list (list email)),
         kept_results parse oracle insert_fails c k (batch :: rest) =
         (if insert_fails k then []
          else [VObj (safeParseJson parse (reply_text (oracle c)) (length batch))])
         ++ kept_results parse oracle insert_fails (S c) (S k) rest)
  /\ (forall (c k : nat) (batches : list (list email)) (v : value),
         v ∈ kept_results parse oracle insert_fails c k batches <->
         exists i batch,
           batches !! i = Some batch
           /\ insert_fails (k + i) = false
           /\ v = VObj (safeParseJson parse (reply_text (oracle (c + i))) (length batch)))
  /\ (forall (calls : ledger_calls) (supabase_configured : bool) (cost : Z)
             (emails : list email) (w w' : World)
             (creditsLeft : option Z) (total : nat) (ids : list value) (fid final : value),
         analyzev2 parse oracle insert_fails db_row calls supabase_configured cost
           userId emails w
         = Some (Ok creditsLeft total ids fid final, w') ->
         exists batches w2 w3,
           chunkArray emails BATCH_SIZE = Some batches
           /\ ids = kept_ids insert_fails db_row (oracle_calls w) (insert_calls w) batches
           /\ mergeReports parse oracle MERGE_BATCH_SIZE
                (kept_results parse oracle insert_fails (oracle_calls w) (insert_calls w)
                   batches) w2
              = Some (final, w3)).
Proof.
  split; [|split; [|split; [|split]]].
  - intros batch ids partial w. apply analyze_batch_eq.
  - intros batches w res.
    destruct (analyze_batches_spec parse oracle insert_fails db_row userId batches [] [] w)
      as (Hfst & _ & Hworked & _).
    fold res in Hfst, Hworked. simpl app in Hfst.
    split; [exact Hfst|]. split; [apply (worked_oracle_calls _ _ _ 0), Hworked|].
    rewrite Hfst. apply saved_same_length.
  - intros c k batch rest. reflexivity.
  - intros c k batches v. unfold kept_results. apply saved_elem_of.
  - intros calls configured cost emails w w' creditsLeft total ids fid final Hrun.
    destruct (analyzev2_ok_inv _ _ _ _ _ _ _ _ _ _ _ _ _ _ _ _ Hrun) as
      (balance & batches & r & w2 & w3 & _ & _ & _ & Hchunk & _ & _ & Hids & _ & -> & _ & _
       & Hmerge & _).
    exists batches, w2, w3. split; [exact Hchunk|]. split; [exact Hids | exact Hmerge].
Qed.

(** C3, as stated, fails: 51 records make two batches; the oracle is down,
    so the results are the fallbacks for 50 and for 1 record; the save of
    the first one fails. The merge receives the second result only, and the
    final result stands for 1 record. *)
Lemma failed_save_result_not_merged :
  exists batches ids partial w',
    chunkArray (replicate 51 an_email) BATCH_SIZE = Some batches
    /\ map length batches = [50; 1]
    /\ analyze_batches Json.parse oracle_down (storage_fails_at 0) rows_from_100 "u1" batches
         ([], []) (world_of [("u1"%string, 100%Z)]) = ((ids, partial), w')
    /\ partial = [VObj (fallback_result [] 1)]
    /\ ~ In (VObj (fallback_result [] 50)) partial
    /\ mergeReports Json.parse oracle_down MERGE_BATCH_SIZE partial w'
       = Some (VObj (fallback_result [] 1), w').
Proof.
  do 4 eexists.
  split; [vm_compute; reflexivity|]. split; [vm_compute; reflexivity|].
  split; [vm_compute; reflexivity|]. split; [reflexivity|].
  split; [|reflexivity].
  intros [H|[]]. vm_compute in H. discriminate H.
Qed.

(** The scenario of the design document with an oracle that behaves: 120
    records, three batches of 50, 50 and 20, three mini-reports, one merge
    round, and a final report for 120 records. *)
Example analyzev2_120_records :
  exists w',
    analyzev2 Json.parse
      (oracle_script
         [Content (Some (jq "{'total_emails':50,'classification':{'positive':50,'negative':0,'neutral':0,'other':0},'highlights':['a'],'summary':'first'}"));
          Content (Some (jq "```json {'total_emails':50,'classification':{'positive':0,'negative':50,'neutral':0,'other':0},'highlights':['b'],'summary':'second'} ```"));
          Content (Some (jq "{'total_emails':20,'classification':{'positive':0,'negative':0,'neutral':20,'other':0},'highlights':[],'summary':'third'}"));
          Content (Some (jq "Merged: {'total_emails':120,'classification':{'positive':50,'negative':50,'neutral':20,'other':0},'highlights':[{'text':'a','count':1,'pct':'50%'}],'summary':'all'}"))])
      storage_up rows_from_100 by_procedure true 1 "u1" (replicate 120 an_email)
      (world_of [("u1"%string, 200%Z)])
    = Some (Ok (Some 80%Z) 120 (map (fun k => VNum (number_of_nat k)) [100; 101; 102])
              (VNum (number_of_nat 103))
              (VObj [(k_total_emails, VNum (S754_finite false 8444249301319680 (-46)));
                     (k_classification,
                      VObj [(k_positive, VNum (S754_finite false 7036874417766400 (-47)));
                            (k_negative, VNum (S754_finite false 7036874417766400 (-47)));
                            (k_neutral, VNum (S754_finite false 5629499534213120 (-48)));
                            (k_other, zero)]);
                     (k_highlights,
                      VArr [VObj [(js "text", VStr (js "a"));
                                  (js "count", VNum (S754_finite false 4503599627370496 (-52)));
                                  (js "pct", VStr (js "50%"))]]);
                     (k_summary, VStr (js "all"))]), w')
    /\ oracle_calls w' = 4 /\ merge_rounds w' = 1 /\ length (reports w') = 4.
Proof. eexists. vm_compute. repeat split. Qed.





(** C10. On the empty list [mergeReports] returns [undefined], which is not
    an analysis result, after one round without a group. The handler gets
    there when no mini-report could be saved, since a result enters the
    merge only after its save: the credits are charged and the answer is
    "IA analysis failed". *)
Theorem mergeReports_empty_is_undefined
    (parse : jsstring -> option value) (oracle : nat -> oracle_reply)
    (insert_fails : nat -> bool) (db_row : nat -> report_row) (calls : ledger_calls)
    (cost : Z) :
  (forall w : World,
      mergeReports parse oracle MERGE_BATCH_SIZE [] w
      = Some (VUndefined, log_event RoundStarted w))
  /\ is_report VUndefined = false
  /\ (forall (userId : string) (batches : list (list email)) (w : World),
         (forall i, insert_fails i = true) ->
         fst (analyze_batches parse oracle insert_fails db_row userId batches ([], []) w)
         = ([], []))
  /\ (forall (userId : string) (emails : list email) (w : World) (balance : Z),
         userId <> EmptyString ->
         emails <> [] ->
         ledger_answers calls = true ->
         profiles w !! userId = Some balance ->
         (Z.of_nat (length emails) * cost <= balance)%Z ->
         (forall i, insert_fails i = true) ->
         exists w',
           analyzev2 parse oracle insert_fails db_row calls true cost userId emails w
             = Some (AnalysisFailed, w')
           /\ profiles w' !! userId = Some (balance - Z.of_nat (length emails) * cost)%Z).
Proof.
  split; [intros w; reflexivity|]. split; [reflexivity|]. split.
  - intros userId batches w Hdown. apply analyze_batches_none_saved, Hdown.
  - intros userId emails w balance Huser Hemails Hup Hbal Hle Hdown.
    destruct (analyzev2_reserved_worked parse oracle insert_fails db_row calls cost
                userId emails w balance Huser Hemails Hup Hbal Hle) as
      (r & w' & o & rounds & Hrun & [Hprof _] & Hcases).
    destruct Hcases as [[-> _] | [Hsome _]].
    + exists w'. split; [exact Hrun|].
      rewrite Hprof. cbn [profiles log_event set_credits]. apply lookup_insert_eq.
    + exfalso. apply Hsome. intros i _. apply Hdown.
Qed.

(** Ten records, a balance of 50, and a table that refuses every insert. *)
Lemma mergeReports_empty_is_undefined_witness :
  fst (analyze_batches Json.parse oracle_down storage_down rows_from_100 "u1"
         [replicate 10 an_email] ([], []) (world_of [("u1"%string, 50%Z)])) = ([], [])
  /\ exists w',
       analyzev2 Json.parse oracle_down storage_down rows_from_100 by_procedure true 1 "u1"
         (replicate 10 an_email) (world_of [("u1"%string, 50%Z)])
       = Some (AnalysisFailed, w')
       /\ profiles w' !! "u1"%string = Some 40%Z.
Proof.
  pose proof (mergeReports_empty_is_undefined Json.parse oracle_down storage_down
                rows_from_100 by_procedure 1)
    as (_ & _ & Hloop & Hrun).
  split.
  - apply (Hloop "u1"%string [replicate 10 an_email] (world_of [("u1"%string, 50%Z)])).
    reflexivity.
  - apply (Hrun "u1"%string (replicate 10 an_email) (world_of [("u1"%string, 50%Z)]) 50%Z);
      [discriminate | discriminate | reflexivity | reflexivity | vm_compute; discriminate
       | reflexivity].
Defined.

(** * Further properties *)

(** ** The chunker with a size of zero *)

Lemma chunk_loop_zero_size {A} (arr : list A) :
  forall fuel i out, i < length arr -> chunk_loop fuel arr 0 i out = None.
Proof.
  induction fuel as [|fuel IH]; intros i out Hi; simpl;
    destruct (Nat.ltb_spec i (length arr)); try lia; [reflexivity|].
  rewrite Nat.add_0_r. apply IH, Hi.
Qed.

(** X1. With a size of 0 [chunkArray] returns the empty list of batches on
    the empty array and never returns on any other: no amount of fuel lets
    the loop end, since its index stays at 0. *)
Theorem chunkArray_zero_size_never_returns {A} :
  chunkArray ([] : list A) 0 = Some []
  /\ (forall arr : list A,
         arr <> [] ->
         chunkArray arr 0 = None
         /\ forall fuel out, chunk_loop fuel arr 0 0 out = None).
Proof.
  split; [reflexivity|]. intros arr Hne.
  assert (Hlen : 0 < length arr) by (destruct arr; [congruence | simpl; lia]).
  split; [apply chunk_loop_zero_size, Hlen|].
  intros fuel out. apply chunk_loop_zero_size, Hlen.
Qed.

Lemma chunkArray_zero_size_never_returns_witness :
  [1; 2; 3] <> [] /\ chunkArray [1; 2; 3] 0 = None
  /\ chunk_loop 1000 [1; 2; 3] 0 0 [] = None.
Proof.
  assert (Hne : [1; 2; 3] <> []) by discriminate.
  destruct (proj2 chunkArray_zero_size_never_returns [1; 2; 3] Hne) as [Hrun Hloop].
  split; [exact Hne|]. split; [exact Hrun | apply Hloop].
Defined.

(** ** The match of [safeParseJson] *)

Lemma from_first_lbrace_app pre rest :
  LBRACE ∉ pre -> from_first_lbrace (pre ++ LBRACE :: rest) = Some (LBRACE :: rest).
Proof.
  induction pre as [|c pre IH]; intros Hpre; simpl.
  - reflexivity.
  - apply not_elem_of_cons in Hpre as [Hc Hpre].
    destruct (N.eqb_spec c LBRACE); [congruence | apply IH, Hpre].
Qed.

Lemma from_first_lbrace_inv s t :
  from_first_lbrace s = Some t ->
  exists pre rest, s = pre ++ LBRACE :: rest /\ t = LBRACE :: rest /\ LBRACE ∉ pre.
Proof.
  induction s as [|c s IH]; simpl; [discriminate|].
  destruct (N.eqb_spec c LBRACE) as [->|Hc].
  - intros [= <-]. exists [], s. repeat split. apply not_elem_of_nil.
  - intros Ht. destruct (IH Ht) as (pre & rest & -> & -> & Hpre).
    exists (c :: pre), rest. repeat split.
    apply not_elem_of_cons. split; [congruence | exact Hpre].
Qed.

Lemma upto_last_rbrace_none s : RBRACE ∉ s -> upto_last_rbrace s = None.
Proof.
  induction s as [|c s IH]; intros Hs; simpl; [reflexivity|].
  apply not_elem_of_cons in Hs as [Hc Hs]. rewrite (IH Hs).
  destruct (N.eqb_spec c RBRACE); [congruence | reflexivity].
Qed.

Lemma upto_last_rbrace_app a post :
  RBRACE ∉ post -> upto_last_rbrace (a ++ RBRACE :: post) = Some (a ++ [RBRACE]).
Proof.
  intros Hpost. induction a as [|c a IH]; simpl.
  - rewrite (upto_last_rbrace_none post Hpost). reflexivity.
  - rewrite IH. reflexivity.
Qed.

Lemma upto_last_rbrace_is_none s : upto_last_rbrace s = None -> RBRACE ∉ s.
Proof.
  induction s as [|c s IH]; simpl; [intros _; apply not_elem_of_nil|].
  destruct (upto_last_rbrace s); [discriminate|].
  destruct (N.eqb_spec c RBRACE); [discriminate|].
  intros _. apply not_elem_of_cons. split; [congruence | apply IH; reflexivity].
Qed.

Lemma upto_last_rbrace_inv s p :
  upto_last_rbrace s = Some p ->
  exists a post, s = a ++ RBRACE :: post /\ p = a ++ [RBRACE] /\ RBRACE ∉ post.
Proof.
  revert p. induction s as [|c s IH]; intros p; simpl; [discriminate|].
  destruct (upto_last_rbrace s) as [q|] eqn:Hq.
  - intros [= <-]. destruct (IH q eq_refl) as (a & post & -> & -> & Hpost).
    exists (c :: a), post. repeat split. exact Hpost.
  - destruct (N.eqb_spec c RBRACE) as [->|Hc]; [|discriminate].
    intros [= <-]. exists [], s. repeat split.
    apply upto_last_rbrace_is_none, Hq.
Qed.

(** X2. The match [/\{[\s\S]*\}/] of [safeParseJson] is the span from the
    first "{" of the text to its last "}": a text with a "{" before a "}"
    matches on exactly that span, and every match is of that form. (So two
    objects in one reply are handed to [JSON.parse] as one text.) *)
Theorem match_braces_spans_first_to_last :
  (forall pre mid post : jsstring,
      (LBRACE ∉ pre) -> (RBRACE ∉ post) ->
      match_braces (pre ++ LBRACE :: mid ++ RBRACE :: post)
      = Some (LBRACE :: mid ++ [RBRACE]))
  /\ (forall str m : jsstring,
         match_braces str = Some m ->
         exists pre mid post,
           str = pre ++ LBRACE :: mid ++ RBRACE :: post
           /\ m = LBRACE :: mid ++ [RBRACE]
           /\ (LBRACE ∉ pre) /\ (RBRACE ∉ post)).
Proof.
  split.
  - intros pre mid post Hpre Hpost. unfold match_braces.
    rewrite (from_first_lbrace_app pre _ Hpre). simpl mbind.
    apply (upto_last_rbrace_app (LBRACE :: mid) post Hpost).
  - intros str m Hm. unfold match_braces in Hm.
    destruct (from_first_lbrace str) as [t|] eqn:Ht; [|discriminate].
    simpl in Hm.
    destruct (from_first_lbrace_inv _ _ Ht) as (pre & rest & -> & -> & Hpre).
    destruct (upto_last_rbrace_inv _ _ Hm) as (a & post & Ha & -> & Hpost).
    destruct a as [|c a]; simpl in Ha.
    + inversion Ha.
    + inversion Ha; subst. exists pre, a, post. repeat split; assumption.
Qed.

Lemma match_braces_spans_first_to_last_witness :
  match_braces (js "a} {b} {c} d{") = Some (js "{b} {c}")
  /\ exists pre mid post,
       js "x{y}z" = pre ++ LBRACE :: mid ++ RBRACE :: post
       /\ js "{y}" = LBRACE :: mid ++ [RBRACE]
       /\ (LBRACE ∉ pre) /\ (RBRACE ∉ post).
Proof.
  destruct match_braces_spans_first_to_last as [Hto Hfrom]. split.
  - apply (Hto (js "a} ") (js "b} {c") (js " d{")).
    + vm_compute. intros H. repeat (apply elem_of_cons in H as [H|H]; [discriminate H|]).
      apply elem_of_nil in H. exact H.
    + vm_compute. intros H. repeat (apply elem_of_cons in H as [H|H]; [discriminate H|]).
      apply elem_of_nil in H. exact H.
  - apply (Hfrom (js "x{y}z") (js "{y}")). reflexivity.
Defined.

(** ** The credit routes *)

(** Closes the cases in which a handler answers and leaves the world. *)
Ltac world_unchanged := solve [simpl; repeat split; eauto].

(** X3. [POST /consume], whatever the request and whatever fails: the
    balance of every other account is left alone; an answer other than the
    new balance leaves the world as it was; the new balance is old - amount
    for an amount that the old balance covers; and balances that were not
    negative are not negative afterwards, whatever the sign of the amount. *)
Theorem consume_keeps_the_ledger
    (supabase_configured select_fails update_fails : bool)
    (userId : string) (amount : option Z) (w : World) :
  let answer := fst (consume supabase_configured select_fails update_fails userId amount w) in
  let w' := snd (consume supabase_configured select_fails update_fails userId amount w) in
  (forall u, u <> userId -> profiles w' !! u = profiles w !! u)
  /\ match answer with
     | ConsumeOk credits =>
         exists a balance,
           amount = Some a
           /\ profiles w !! userId = Some balance
           /\ (a <= balance)%Z
           /\ credits = (balance - a)%Z
           /\ profiles w' !! userId = Some credits
     | _ => w' = w
     end
  /\ ((forall u b, profiles w !! u = Some b -> (0 <= b)%Z) ->
      forall u b, profiles w' !! u = Some b -> (0 <= b)%Z).
Proof.
  unfold consume. cbv zeta.
  destruct amount as [a|]; [|world_unchanged].
  destruct (bool_decide (userId = EmptyString)); [world_unchanged|].
  destruct supabase_configured; [|world_unchanged].
  destruct select_fails; [world_unchanged|]. simpl negb. cbv iota.
  destruct (profiles w !! userId) as [balance|] eqn:Hbal; [|world_unchanged].
  destruct (Z.ltb_spec balance a) as [Hlt|Hle]; [world_unchanged|].
  destruct update_fails; [world_unchanged|].
  cbn [fst snd profiles log_event set_credits].
  split; [intros u Hu; apply lookup_insert_ne; congruence|].
  split.
  - exists a, balance. repeat split; [exact Hle | apply lookup_insert_eq].
  - intros Hpos u b. destruct (decide (u = userId)) as [->|Hu].
    + rewrite lookup_insert_eq. intros [= <-]. lia.
    + rewrite lookup_insert_ne by congruence. apply Hpos.
Qed.

Lemma consume_keeps_the_ledger_witness :
  consume true false false "u1" (Some 3%Z) (world_of [("u1"%string, 5%Z); ("u2"%string, 7%Z)])
  = (ConsumeOk 2,
     log_event (Charged "u1" 3)
       (set_credits "u1" 2 (world_of [("u1"%string, 5%Z); ("u2"%string, 7%Z)])))
  /\ forall u b,
       profiles (snd (consume true false false "u1" (Some 3%Z)
                        (world_of [("u1"%string, 5%Z); ("u2"%string, 7%Z)]))) !! u = Some b ->
       (0 <= b)%Z.
Proof.
  split; [reflexivity|].
  apply (consume_keeps_the_ledger true false false "u1" (Some 3%Z)
           (world_of [("u1"%string, 5%Z); ("u2"%string, 7%Z)])).
  intros u b. unfold world_of. cbn [profiles list_to_map foldr uncurry fst snd].
  destruct (decide (u = "u1"%string)) as [->|H1].
  - rewrite lookup_insert_eq. intros [= <-]. lia.
  - rewrite lookup_insert_ne by congruence.
    destruct (decide (u = "u2"%string)) as [->|H2].
    + rewrite lookup_insert_eq. intros [= <-]. lia.
    + rewrite lookup_insert_ne by congruence. rewrite lookup_empty. discriminate.
Defined.

(** X4. [POST /consume] does not look at the sign of the amount: a negative
    amount is never refused for want of credits by an account without debt,
    and it raises the balance. *)
Theorem consume_negative_amount_adds_credits
    (userId : string) (amount balance : Z) (w : World) :
  userId <> EmptyString ->
  profiles w !! userId = Some balance ->
  (0 <= balance)%Z ->
  (amount < 0)%Z ->
  exists w',
    consume true false false userId (Some amount) w = (ConsumeOk (balance - amount), w')
    /\ profiles w' !! userId = Some (balance - amount)%Z
    /\ (balance < balance - amount)%Z.
Proof.
  intros Huser Hbal Hpos Hneg. unfold consume.
  rewrite (bool_decide_eq_false_2 _ Huser), Hbal. simpl negb. cbv iota.
  destruct (Z.ltb_spec balance amount); [lia|].
  eexists. split; [reflexivity|]. split; [apply lookup_insert_eq | lia].
Qed.

Lemma consume_negative_amount_adds_credits_witness :
  exists w',
    consume true false false "u1" (Some (-100)%Z) (world_of [("u1"%string, 5%Z)])
    = (ConsumeOk 105, w')
    /\ profiles w' !! "u1"%string = Some 105%Z.
Proof.
  destruct (consume_negative_amount_adds_credits "u1" (-100) 5
              (world_of [("u1"%string, 5%Z)])) as (w' & Hrun & Hbal & _);
    [discriminate | reflexivity | lia | lia |].
  exists w'. split; assumption.
Defined.

(** X5. The by-hand path of step 1 of [/analyzev2] against [POST /consume],
    for every account and amount and whatever the select and the update do.
    The two refuse together, with the matching answer ("User not found",
    not enough credits), and charge together, leaving the same world and
    handing back the same balance. They part when the update fails:
    [/consume] looks at the error and answers "Failed to update credits",
    [/analyzev2] reads the result without a look at the error and ends in
    its outer catch. Neither charges then. *)
Theorem reserve_by_hand_against_consume
    (calls : ledger_calls) (userId : string) (amount : Z) (w : World) :
  userId <> EmptyString ->
  rpc_goes calls = RpcThrows ->
  let paid := consume true (byhand_select_fails calls) (byhand_update_fails calls)
                userId (Some amount) w in
  match reserve calls userId amount w with
  | (inl UserNotFound, w') => paid = (ConsumeUserNotFound, w') /\ w' = w
  | (inl NotEnoughCredits, w') => paid = (ConsumeInsufficient, w') /\ w' = w
  | (inl AnalysisFailed, w') =>
      paid = (ConsumeUpdateFailed, w') /\ w' = w /\ byhand_update_fails calls = true
  | (inr (Some credits), w') =>
      paid = (ConsumeOk credits, w')
      /\ byhand_select_fails calls = false /\ byhand_update_fails calls = false
  | _ => False
  end.
Proof.
  intros Huser Hrpc. unfold reserve, consume. rewrite Hrpc.
  rewrite (bool_decide_eq_false_2 _ Huser). simpl negb. cbv iota zeta.
  destruct (byhand_select_fails calls); [split; reflexivity|].
  destruct (profiles w !! userId) as [balance|]; [|split; reflexivity].
  destruct (balance <? amount)%Z; [split; reflexivity|].
  destruct (byhand_update_fails calls); repeat split.
Qed.

Lemma reserve_by_hand_against_consume_witness :
  reserve by_hand "u1" 3 (world_of [("u1"%string, 5%Z)])
  = (inr (Some 2%Z),
     snd (consume true false false "u1" (Some 3%Z) (world_of [("u1"%string, 5%Z)])))
  /\ reserve update_refused "u1" 3 (world_of [("u1"%string, 5%Z)])
     = (inl AnalysisFailed, world_of [("u1"%string, 5%Z)])
  /\ consume true false true "u1" (Some 3%Z) (world_of [("u1"%string, 5%Z)])
     = (ConsumeUpdateFailed, world_of [("u1"%string, 5%Z)]).
Proof.
  pose proof (reserve_by_hand_against_consume by_hand "u1" 3
                (world_of [("u1"%string, 5%Z)])) as H.
  pose proof (reserve_by_hand_against_consume update_refused "u1" 3
                (world_of [("u1"%string, 5%Z)])) as H'.
  assert (Hres : reserve by_hand "u1" 3 (world_of [("u1"%string, 5%Z)])
                 = (inr (Some 2%Z),
                    log_event (Charged "u1" 3)
                      (set_credits "u1" 2 (world_of [("u1"%string, 5%Z)]))))
    by reflexivity.
  assert (Hres' : reserve update_refused "u1" 3 (world_of [("u1"%string, 5%Z)])
                  = (inl AnalysisFailed, world_of [("u1"%string, 5%Z)]))
    by reflexivity.
  cbv zeta in H, H'. rewrite Hres in H. rewrite Hres' in H'.
  destruct H as [Hpaid _]; [discriminate | reflexivity |].
  destruct H' as [Hpaid' _]; [discriminate | reflexivity |].
  split; [|split; [exact Hres' | exact Hpaid']].
  rewrite Hres. simpl byhand_select_fails in Hpaid. simpl byhand_update_fails in Hpaid.
  rewrite Hpaid. reflexivity.
Defined.

(** X6. [GET /credits] never changes the balance of an account that exists;
    a balance it hands out is the balance of the account from then on; and
    asking again gives the same answer and changes nothing, whether or not
    the first call had to create the profile. *)
Theorem credits_get_is_stable
    (supabase_configured select_fails insert_fails : bool) (userId : string) (w : World) :
  let answer := fst (credits_get supabase_configured select_fails insert_fails userId w) in
  let w' := snd (credits_get supabase_configured select_fails insert_fails userId w) in
  (forall u b, profiles w !! u = Some b -> profiles w' !! u = Some b)
  /\ match answer with
     | CreditsOf credits =>
         profiles w' !! userId = Some credits
         /\ (profiles w !! userId = None -> credits = 10%Z)
         /\ forall insert_fails',
              credits_get true false insert_fails' userId w' = (CreditsOf credits, w')
     | _ => w' = w
     end.
Proof.
  unfold credits_get. cbv zeta.
  destruct (bool_decide (userId = EmptyString)) eqn:Huser; [world_unchanged|].
  destruct supabase_configured; [|world_unchanged].
  destruct select_fails; [world_unchanged|]. simpl negb. cbv iota.
  destruct (profiles w !! userId) as [balance|] eqn:Hbal.
  - cbn [fst snd]. split; [auto|]. split; [exact Hbal|]. split; [discriminate|].
    intros ins'. rewrite Hbal. reflexivity.
  - destruct insert_fails; [world_unchanged|].
    cbn [fst snd profiles set_credits]. split.
    + intros u b Hu. rewrite lookup_insert_ne; [exact Hu | congruence].
    + split; [apply lookup_insert_eq|]. split; [reflexivity|].
      intros ins'. rewrite lookup_insert_eq. reflexivity.
Qed.

(** X7. The first [GET /credits] of an unknown account opens it with 10
    credits, and that is what [/analyzev2] then lets it spend when it
    reserves by hand, at one credit per record: a request of more than 10
    records is refused with nothing charged, and a request of n <= 10
    records leaves 10 - n when the select and the update succeed. A failed
    select is answered "User not found" and a failed update ends in the
    outer catch, both with the 10 credits untouched. *)
Theorem new_account_can_analyze_ten_records
    (parse : jsstring -> option value) (oracle : nat -> oracle_reply)
    (insert_fails : nat -> bool) (db_row : nat -> report_row) (calls : ledger_calls)
    (userId : string) (emails : list email) (w : World) :
  userId <> EmptyString ->
  emails <> [] ->
  profiles w !! userId = None ->
  rpc_goes calls = RpcThrows ->
  exists w1,
    credits_get true false false userId w = (CreditsOf 10, w1)
    /\ profiles w1 !! userId = Some 10%Z
    /\ let run := analyzev2 parse oracle insert_fails db_row calls true 1 userId emails w1 in
       if byhand_select_fails calls then run = Some (UserNotFound, w1)
       else if 10 <? length emails then run = Some (NotEnoughCredits, w1)
       else if byhand_update_fails calls then run = Some (AnalysisFailed, w1)
       else
         exists r w',
           run = Some (r, w')
           /\ profiles w' !! userId = Some (10 - Z.of_nat (length emails))%Z.
Proof.
  intros Huser Hemails Hnew Hrpc. eexists. split.
  { unfold credits_get. rewrite (bool_decide_eq_false_2 _ Huser), Hnew. reflexivity. }
  set (w1 := set_credits userId 10 w).
  assert (Hbal : profiles w1 !! userId = Some 10%Z) by apply lookup_insert_eq.
  split; [exact Hbal|]. cbv zeta.
  assert (Hrefused : forall answer,
            reserve calls userId (Z.of_nat (length emails) * 1) w1 = (inl answer, w1) ->
            analyzev2 parse oracle insert_fails db_row calls true 1 userId emails w1
            = Some (answer, w1)).
  { intros answer Hres. unfold analyzev2.
    rewrite (bool_decide_eq_false_2 _ Huser), (bool_decide_eq_false_2 _ Hemails).
    cbn [orb negb]. rewrite Hres. reflexivity. }
  destruct (byhand_select_fails calls) eqn:Hsel.
  { apply Hrefused. unfold reserve. rewrite Hrpc, Hsel. reflexivity. }
  destruct (Nat.ltb_spec 10 (length emails)) as [Hmany|Hfew].
  { apply Hrefused. unfold reserve. rewrite Hrpc, Hsel, Hbal.
    destruct (Z.ltb_spec 10 (Z.of_nat (length emails) * 1)); [reflexivity | lia]. }
  destruct (byhand_update_fails calls) eqn:Hupd.
  { apply Hrefused, (reserve_update_fails calls userId _ w1 10); try assumption. lia. }
  assert (Hup : ledger_answers calls = true).
  { unfold ledger_answers. rewrite Hrpc, Hsel, Hupd. reflexivity. }
  destruct (analyzev2_reserved_worked parse oracle insert_fails db_row calls 1
              userId emails w1 10 Huser Hemails Hup Hbal ltac:(lia)) as
    (r & w' & o & rounds & Hrun & [Hprof _] & _).
  exists r, w'. split; [exact Hrun|].
  rewrite Hprof. cbn [profiles log_event set_credits].
  rewrite lookup_insert_eq. f_equal. lia.
Qed.

Lemma new_account_can_analyze_ten_records_witness :
  exists w1,
    credits_get true false false "u9" (world_of []) = (CreditsOf 10, w1)
    /\ analyzev2 Json.parse oracle_down storage_up rows_from_100 by_hand true 1 "u9"
         (replicate 11 an_email) w1 = Some (NotEnoughCredits, w1).
Proof.
  destruct (new_account_can_analyze_ten_records Json.parse oracle_down storage_up
              rows_from_100 by_hand "u9" (replicate 11 an_email) (world_of []))
    as (w1 & Hget & _ & Hrun);
    [discriminate | discriminate | reflexivity | reflexivity |].
  exists w1. split; [exact Hget | exact Hrun].
Defined.

(** ** Buying credits *)

Section WebhookBody.

Variable read_json : jsstring -> option value.
Variable read_urlencoded : jsstring -> option value.
Variable read_raw : jsstring -> option jsstring.

(** After [express.json] and [express.urlencoded], a body that is still
    unread is not one of type application/json. *)
Lemma unread_after_express_json req b1 b2 :
  express_json read_json req BodyUnread = Some b1 ->
  express_urlencoded read_urlencoded req b1 = Some b2 ->
  b2 = BodyUnread ->
  req_bytes req = None \/ is_json (req_content_type req) = false.
Proof.
  unfold express_json, express_urlencoded, body_parser.
  destruct (req_bytes req) as [bytes|]; [|auto].
  destruct (is_json (req_content_type req)); [|auto].
  destruct (read_json bytes); simpl; [|discriminate].
  intros [= <-] [= <-]. discriminate.
Qed.

End WebhookBody.

(** X8. As the application is mounted, [express.json] (line 69) comes before
    the [bodyParser.raw] of the route (line 283). Each of the two reads a
    body of type application/json that no parser has read before it, and
    passes on one that was read; so the first reads, the parser of the
    route passes, and the handler of [/webhook] never finds the bytes of the
    request in [req.body]. With a [constructEvent] that throws on anything
    but these bytes, every request is answered with an error, of a parser or
    of the signature check, and nothing changes: no payment is recorded, no
    balance moves. *)
Theorem webhook_never_gets_the_raw_body
    (read_json read_urlencoded : jsstring -> option value)
    (read_raw : jsstring -> option jsstring)
    (constructEvent : req_body -> option jsstring -> stripe_event)
    (supabase_configured payment_insert_fails select_fails update_fails : bool) :
  (forall (req : webhook_request) (bytes : jsstring),
      req_content_type req = ContentJson ->
      req_bytes req = Some bytes ->
      express_json read_json req BodyUnread = BodyObject <$> read_json bytes
      /\ bodyParser_raw read_raw req BodyUnread = BodyBuffer <$> read_raw bytes
      /\ forall v, bodyParser_raw read_raw req (BodyObject v) = Some (BodyObject v))
  /\ (forall (req : webhook_request) (b : req_body),
         webhook_body read_json read_urlencoded read_raw req = Some b ->
         forall bytes, b <> BodyBuffer bytes)
  /\ ((forall b sig, (forall bytes, b <> BodyBuffer bytes) ->
                     constructEvent b sig = SignatureInvalid) ->
      forall (req : webhook_request) (st : Billing),
        webhook_route read_json read_urlencoded read_raw constructEvent supabase_configured
          payment_insert_fails select_fails update_fails req st
        = (match webhook_body read_json read_urlencoded read_raw req with
           | None => WebhookParserError
           | Some _ => WebhookSignatureError
           end, st)).
Proof.
  assert (Hbody : forall req b,
            webhook_body read_json read_urlencoded read_raw req = Some b ->
            forall bytes, b <> BodyBuffer bytes).
  { intros req b Hb bytes ->. unfold webhook_body in Hb.
    destruct (express_json read_json req BodyUnread) as [b1|] eqn:H1; [|discriminate Hb].
    cbn [mbind option_bind] in Hb.
    destruct (express_urlencoded read_urlencoded req b1) as [b2|] eqn:H2;
      [|discriminate Hb].
    cbn [mbind option_bind] in Hb.
    destruct b2 as [|v|bytes'].
    - destruct (unread_after_express_json read_json read_urlencoded req b1 BodyUnread
                  H1 H2 eq_refl) as [Hnone | Htype];
        unfold bodyParser_raw, body_parser in Hb.
      + rewrite Hnone in Hb. discriminate Hb.
      + rewrite Htype in Hb. destruct (req_bytes req); discriminate Hb.
    - discriminate Hb.
    - unfold express_json, express_urlencoded, body_parser in H1, H2.
      destruct (req_bytes req) as [bytes0|].
      + destruct (is_json (req_content_type req)).
        * destruct (read_json bytes0); simpl in H1; [|discriminate H1].
          injection H1 as <-. discriminate H2.
        * injection H1 as <-.
          destruct (is_urlencoded (req_content_type req)); [|discriminate H2].
          destruct (read_urlencoded bytes0); discriminate H2.
      + injection H1 as <-. discriminate H2. }
  split; [|split; [exact Hbody|]].
  - intros req bytes Htype Hbytes. unfold express_json, bodyParser_raw, body_parser.
    rewrite Hbytes, Htype. repeat split.
  - intros Hraw req st. unfold webhook_route.
    destruct (webhook_body read_json read_urlencoded read_raw req) as [b|] eqn:Hb;
      [|reflexivity].
    rewrite (Hraw b (req_signature req) (Hbody req b Hb)). reflexivity.
Qed.

(** A signed checkout of 500 credits for an account with 5, and a
    [constructEvent] that takes the bytes with a signature for what they
    say: the request is refused and nothing is credited. *)
Lemma webhook_never_gets_the_raw_body_witness :
  let constructEvent := fun (b : req_body) (sig : option jsstring) =>
    match b, sig with
    | BodyBuffer _, Some _ =>
        CheckoutSessionCompleted
          {| session_id := js "cs_1"; metadata_userId := Some "u1"%string;
             metadata_credits := Some (js "500"); amount_total := 2000 |}
    | _, _ => SignatureInvalid
    end in
  let req := {| req_content_type := ContentJson; req_bytes := Some (jq "{'id':'evt_1'}");
                req_signature := Some (js "t=1,v1=abc") |} in
  let st := {| ledger := world_of [("u1"%string, 5%Z)]; payments := [] |} in
  webhook_route Json.parse (fun _ => None) Some constructEvent true false false false req st
  = (WebhookSignatureError, st)
  /\ constructEvent (BodyBuffer (jq "{'id':'evt_1'}")) (req_signature req)
     <> SignatureInvalid.
Proof.
  intros constructEvent req st.
  destruct (webhook_never_gets_the_raw_body Json.parse (fun _ => None) Some constructEvent
              true false false false) as (_ & _ & Hmounted).
  split; [|discriminate].
  rewrite Hmounted; [reflexivity|].
  intros [| |bytes] sig Hb; try reflexivity. destruct (Hb bytes eq_refl).
Defined.

(** X10. [POST /create-checkout-session] asks Stripe for a session at most
    once, and only for one of the three packs, at the price of the table:
    100 credits for 500 cents, 500 for 2000, 2000 for 7000, with the buyer
    and the pack in the metadata. Every other request is refused with a 400
    before Stripe is called, and the answer is a 400 only then. *)
Theorem create_checkout_session_sells_three_packs
    (stripe_create : session_request -> option jsstring)
    (userId : string) (credits_text : jsstring) :
  let answer := fst (create_checkout_session stripe_create userId credits_text) in
  let requests := snd (create_checkout_session stripe_create userId credits_text) in
  (requests = []
   /\ (answer = CheckoutMissingParams \/ answer = CheckoutInvalidPack))
  \/ (exists credits price,
        requests = [{| unit_amount := price; request_userId := userId;
                       request_credits := credits |}]
        /\ In (credits, price) [(100, 500); (500, 2000); (2000, 7000)]%Z
        /\ parseInt credits_text = Some credits
        /\ userId <> EmptyString
        /\ answer = match stripe_create {| unit_amount := price; request_userId := userId;
                                           request_credits := credits |} with
                    | Some url => CheckoutUrl url
                    | None => CheckoutFailed
                    end).
Proof.
  unfold create_checkout_session. cbv zeta.
  destruct (parseInt credits_text) as [credits|]; [|left; simpl; auto].
  destruct (bool_decide (userId = EmptyString)) eqn:Huser; [left; simpl; auto|].
  apply bool_decide_eq_false_1 in Huser.
  unfold CREDIT_PACKS.
  destruct (Z.eqb_spec credits 100) as [->|_].
  { right. exists 100%Z, 500%Z. cbn [fst snd In]. repeat split; auto. }
  destruct (Z.eqb_spec credits 500) as [->|_].
  { right. exists 500%Z, 2000%Z. cbn [fst snd In]. repeat split; auto. }
  destruct (Z.eqb_spec credits 2000) as [->|_].
  { right. exists 2000%Z, 7000%Z. cbn [fst snd In]. repeat split; auto. }
  left. simpl. auto.
Qed.

(** X11. The price of test-stripe.js against the table of the server: the
    two agree on every pack that the server sells, and where the server
    refuses the pack the test backend charges 7000 cents, the price of the
    largest one. *)
Theorem test_unit_amount_against_CREDIT_PACKS (credits : option Z) :
  test_unit_amount credits = default 7000%Z (credits ≫= CREDIT_PACKS)
  /\ (forall c price, credits = Some c -> CREDIT_PACKS c = Some price ->
        test_unit_amount credits = price)
  /\ (credits ≫= CREDIT_PACKS = None -> test_unit_amount credits = 7000%Z).
Proof.
  assert (Hall : test_unit_amount credits = default 7000%Z (credits ≫= CREDIT_PACKS)).
  { destruct credits as [c|]; [|reflexivity]. simpl. unfold CREDIT_PACKS.
    destruct (c =? 100)%Z; [reflexivity|].
    destruct (c =? 500)%Z; [reflexivity|].
    destruct (c =? 2000)%Z; reflexivity. }
  split; [exact Hall|]. split.
  - intros c price -> Hprice. rewrite Hall. simpl. rewrite Hprice. reflexivity.
  - intros Hnone. rewrite Hall, Hnone. reflexivity.
Qed.

Lemma test_unit_amount_against_CREDIT_PACKS_witness :
  test_unit_amount (Some 500%Z) = 2000%Z /\ test_unit_amount (Some 42%Z) = 7000%Z.
Proof.
  split.
  - apply (proj1 (proj2 (test_unit_amount_against_CREDIT_PACKS (Some 500%Z))) 500%Z 2000%Z);
      reflexivity.
  - apply (proj2 (proj2 (test_unit_amount_against_CREDIT_PACKS (Some 42%Z)))). reflexivity.
Defined.
(** ** More on [/analyzev2] *)

Lemma mergeReports_reports parse oracle fan_in jsonList w v w' :
  2 <= fan_in ->
  mergeReports parse oracle fan_in jsonList w = Some (v, w') ->
  reports w' = reports w /\ profiles w' = profiles w.
Proof.
  intros Hfan Hrun. destruct jsonList as [|x l].
  - rewrite mergeReports_nil in Hrun. inversion Hrun; subst. split; reflexivity.
  - destruct (mergeReports_spec parse oracle fan_in Hfan (x :: l) w) as
      (k & o & v0 & w0 & Hrun0 & [Hprof _] & Hrep & _); [simpl; lia|].
    rewrite Hrun0 in Hrun. inversion Hrun; subst. split; assumption.
Qed.

(** X12. [/analyzev2] keeps the ledger, whatever it answers and whatever
    fails: it always answers; no account other than the one of the request
    sees its balance change; no account is created or removed; and balances
    that were not negative are not negative afterwards, whatever the cost
    per record. *)
Theorem analyzev2_keeps_the_ledger
    (parse : jsstring -> option value) (oracle : nat -> oracle_reply)
    (insert_fails : nat -> bool) (db_row : nat -> report_row) (calls : ledger_calls)
    (supabase_configured : bool) (cost : Z)
    (userId : string) (emails : list email) (w : World) :
  exists r w',
    analyzev2 parse oracle insert_fails db_row calls supabase_configured cost userId emails w
      = Some (r, w')
    /\ (forall u, u <> userId -> profiles w' !! u = profiles w !! u)
    /\ (forall u, is_Some (profiles w' !! u) <-> is_Some (profiles w !! u))
    /\ ((forall u b, profiles w !! u = Some b -> (0 <= b)%Z) ->
        forall u b, profiles w' !! u = Some b -> (0 <= b)%Z).
Proof.
  assert (Hsame : forall r,
            analyzev2 parse oracle insert_fails db_row calls supabase_configured cost
              userId emails w = Some (r, w) ->
            exists r w',
              analyzev2 parse oracle insert_fails db_row calls supabase_configured cost
                userId emails w = Some (r, w')
              /\ (forall u, u <> userId -> profiles w' !! u = profiles w !! u)
              /\ (forall u, is_Some (profiles w' !! u) <-> is_Some (profiles w !! u))
              /\ ((forall u b, profiles w !! u = Some b -> (0 <= b)%Z) ->
                  forall u b, profiles w' !! u = Some b -> (0 <= b)%Z)).
  { intros r Hrun. exists r, w. split; [exact Hrun|]. repeat split; auto. }
  pose proof (analyzev2_cases parse oracle insert_fails db_row calls supabase_configured cost
                userId emails w) as Hcases.
  cbv zeta in Hcases.
  destruct Hcases as
    [[_ Hrun] | [(_ & _ & _ & Hrun) | [(_ & _ & _ & answer & _ & Hrun)
     | (Hu & He & Hc & Hup & balance & Hbal & Hle & _)]]];
    try (eapply Hsame; exact Hrun).
  subst supabase_configured.
  destruct (analyzev2_reserved_worked parse oracle insert_fails db_row calls cost
              userId emails w balance Hu He Hup Hbal Hle) as
    (r & w' & o & rounds & Hrun & [Hprof _] & _).
  exists r, w'. split; [exact Hrun|]. rewrite Hprof. cbn [profiles log_event set_credits].
  split; [intros u Hne; apply lookup_insert_ne; congruence|]. split.
  - intros u. destruct (decide (u = userId)) as [->|Hne].
    + rewrite lookup_insert_eq, Hbal. split; eauto.
    + rewrite lookup_insert_ne by congruence. reflexivity.
  - intros Hpos u b. destruct (decide (u = userId)) as [->|Hne].
    + rewrite lookup_insert_eq. intros [= <-]. lia.
    + rewrite lookup_insert_ne by congruence. apply Hpos.
Qed.

(** The ids that the loop keeps are ids of inserts of the loop, and no id
    is kept twice when the database gives none twice. *)
Lemma kept_ids_from_inserts insert_fails db_row batches :
  forall c k id,
    id ∈ kept_ids insert_fails db_row c k batches ->
    exists j, k <= j < k + length batches /\ id = row_id (db_row j).
Proof.
  unfold kept_ids. induction batches as [|batch rest IH]; intros c k id Hid; simpl in Hid.
  - apply elem_of_nil in Hid. contradiction.
  - apply elem_of_app in Hid as [Hid|Hid].
    + destruct (insert_fails k); [apply elem_of_nil in Hid; contradiction|].
      apply list_elem_of_singleton in Hid. exists k. simpl. split; [lia | exact Hid].
    + destruct (IH _ _ _ Hid) as (j & Hj & ->). exists j. simpl. split; [lia | reflexivity].
Qed.

Lemma kept_ids_NoDup insert_fails db_row batches :
  (forall i j, row_id (db_row i) = row_id (db_row j) -> i = j) ->
  forall c k, NoDup (kept_ids insert_fails db_row c k batches).
Proof.
  intros Hinj. induction batches as [|batch rest IH]; intros c k.
  - constructor.
  - unfold kept_ids. cbn [saved]. fold (kept_ids insert_fails db_row (S c) (S k) rest).
    destruct (insert_fails k); simpl; [apply IH|].
    constructor; [|apply IH].
    intros Hin. apply kept_ids_from_inserts in Hin as (j & Hj & Heq).
    apply Hinj in Heq. lia.
Qed.

Lemma kept_rows_ids parse oracle insert_fails db_row userId batches :
  forall c k,
    map row_id (kept_rows parse oracle insert_fails db_row userId c k batches)
    = kept_ids insert_fails db_row c k batches.
Proof. intros c k. unfold kept_rows, kept_ids. rewrite saved_map. reflexivity. Qed.

(** X13. When [/analyzev2] answers with a report, the table has only grown:
    by one mini-report row per recorded id, in the order of the ids, each
    row with the id that the database gave it, not final and of the user of
    the request; and then by the final row, which is last, carries the id
    of the answer, the fields of the final report and exactly the recorded
    ids as [mini_report_ids]. The ids are those of the inserts of the run
    that succeeded; when the database gives no id twice, no id is recorded
    twice and the id of the final report is none of them. *)
Theorem analyzev2_table_has_provenance
    (parse : jsstring -> option value) (oracle : nat -> oracle_reply)
    (insert_fails : nat -> bool) (db_row : nat -> report_row) (calls : ledger_calls)
    (supabase_configured : bool) (cost : Z)
    (userId : string) (emails : list email) (w w' : World)
    (creditsLeft : option Z) (total : nat) (ids : list value) (fid final : value) :
  analyzev2 parse oracle insert_fails db_row calls supabase_configured cost userId emails w
    = Some (Ok creditsLeft total ids fid final, w') ->
  exists minis columns batches,
    chunkArray emails BATCH_SIZE = Some batches
    /\ reports w' = reports w ++ minis
                    ++ [columns (db_row (insert_calls w + length batches))]
    /\ final_row userId final ids = Some columns
    /\ fid = row_id (db_row (insert_calls w + length batches))
    /\ row_id (columns (db_row (insert_calls w + length batches))) = fid
    /\ row_is_final (columns (db_row (insert_calls w + length batches))) = VBool true
    /\ row_mini_report_ids (columns (db_row (insert_calls w + length batches))) = VArr ids
    /\ map row_id minis = ids
    /\ ids = kept_ids insert_fails db_row (oracle_calls w) (insert_calls w) batches
    /\ 1 <= length ids
    /\ Forall (fun m => row_is_final m = VBool false /\ row_user_id m = userId) minis
    /\ ((forall i j, row_id (db_row i) = row_id (db_row j) -> i = j) ->
        NoDup (ids ++ [fid])).
Proof.
  intros H.
  destruct (analyzev2_ok_inv _ _ _ _ _ _ _ _ _ _ _ _ _ _ _ _ H) as
    (balance & batches & r & w2 & w3 & _ & _ & _ & Hchunk & _ & _ & Hids & Hne & -> & _ & _
     & _ & _ & _ & Hfid & Hrep & _).
  exists (kept_rows parse oracle insert_fails db_row userId (oracle_calls w) (insert_calls w)
            batches),
         (final_columns userId (get_prop k_total_emails r) (get_prop k_summary r)
            (get_prop k_classification r) (get_prop k_highlights r) ids),
         batches.
  split; [exact Hchunk|]. split; [exact Hrep|]. split; [reflexivity|].
  split; [exact Hfid|]. split; [symmetry; exact Hfid|].
  split; [reflexivity|]. split; [reflexivity|].
  split; [rewrite Hids; apply kept_rows_ids|]. split; [exact Hids|].
  split; [destruct ids; [congruence | simpl; lia]|].
  split; [apply saved_Forall; intros; split; reflexivity|].
  intros Hinj. apply NoDup_app. split; [rewrite Hids; apply kept_ids_NoDup, Hinj|].
  split; [|apply NoDup_singleton].
  intros id Hid Hfinal. apply list_elem_of_singleton in Hfinal. subst id.
  rewrite Hids in Hid. apply kept_ids_from_inserts in Hid as (j & Hj & Heq).
  rewrite Hfid in Heq. apply Hinj in Heq. lia.
Qed.

(** 120 records with a database that numbers its rows from 100 on; and with
    one that gives every row the id 7, which is then recorded three times. *)
Lemma analyzev2_table_has_provenance_witness :
  (exists w' final minis columns,
     analyzev2 Json.parse oracle_down storage_up rows_from_100 by_hand true 1 "u1"
       (replicate 120 an_email) (world_of [("u1"%string, 200%Z)])
     = Some (Ok (Some 80%Z) 120 (map (fun k => VNum (number_of_nat k)) [100; 101; 102])
               (VNum (number_of_nat 103)) final, w')
     /\ reports w' = [] ++ minis ++ [columns (rows_from_100 3)]
     /\ map row_id minis = map (fun k => VNum (number_of_nat k)) [100; 101; 102]
     /\ row_mini_report_ids (columns (rows_from_100 3))
        = VArr (map (fun k => VNum (number_of_nat k)) [100; 101; 102]))
  /\ exists w' final,
       analyzev2 Json.parse oracle_down storage_up rows_all_7 by_hand true 1 "u1"
         (replicate 120 an_email) (world_of [("u1"%string, 200%Z)])
       = Some (Ok (Some 80%Z) 120 (replicate 3 (VNum (number_of_nat 7)))
                 (VNum (number_of_nat 7)) final, w').
Proof.
  split; [|eexists _, _; vm_compute; reflexivity].
  assert (Hrun : exists w' final,
            analyzev2 Json.parse oracle_down storage_up rows_from_100 by_hand true 1 "u1"
              (replicate 120 an_email) (world_of [("u1"%string, 200%Z)])
            = Some (Ok (Some 80%Z) 120 (map (fun k => VNum (number_of_nat k)) [100; 101; 102])
                      (VNum (number_of_nat 103)) final, w')).
  { eexists _, _. vm_compute. reflexivity. }
  destruct Hrun as (w' & final & Hrun).
  destruct (analyzev2_table_has_provenance _ _ _ _ _ _ _ _ _ _ _ _ _ _ _ _ Hrun)
    as (minis & columns & batches & Hchunk & Hrep & _ & _ & _ & _ & Hmini & Hids & _).
  vm_compute in Hchunk. injection Hchunk as <-.
  exists w', final, minis, columns. split; [exact Hrun|]. split; [exact Hrep|].
  split; [exact Hids | exact Hmini].
Defined.

(** ** With the oracle down *)

Lemma merge_groups_down parse oracle :
  (forall k, oracle k = Throws) ->
  forall groups merged w,
    fst (merge_groups parse oracle groups merged w)
    = merged ++ map (fun g => index g 0) groups.
Proof.
  intros Hdown. induction groups as [|group rest IH]; intros merged w; cbn [merge_groups].
  - simpl. rewrite app_nil_r. reflexivity.
  - unfold merge_group at 1. unfold ask_oracle. rewrite Hdown.
    rewrite IH, <- app_assoc. reflexivity.
Qed.

Lemma mergeReports_fuel_down parse oracle fan_in :
  (forall k, oracle k = Throws) ->
  2 <= fan_in ->
  forall fuel jsonList w,
    1 <= length jsonList ->
    length jsonList <= fuel ->
    exists w', mergeReports_fuel parse oracle fan_in fuel jsonList w
               = Some (index jsonList 0, w').
Proof.
  intros Hdown Hfan. induction fuel as [|fuel IH]; intros l w Hne Hfuel; [lia|].
  cbn [mergeReports_fuel].
  destruct (Nat.eqb_spec (length l) 1) as [Hone|Hmany]; [eauto|].
  destruct (chunkArray_spec l fan_in) as
    (groups & Hrun & _ & Hlo & Hhi & _ & _ & _ & Hnth); [lia|].
  rewrite Hrun. cbn [mbind option_bind].
  pose proof (merge_groups_down parse oracle Hdown groups [] (log_event RoundStarted w))
    as Hmerged.
  destruct (merge_groups_spec parse oracle groups [] (log_event RoundStarted w))
    as (Hlen & _).
  destruct (merge_groups parse oracle groups [] (log_event RoundStarted w)) as [merged w1].
  cbn [fst snd] in Hmerged, Hlen. simpl in Hmerged, Hlen.
  assert (Hshrink : length groups < length l) by nia.
  assert (Hfirst : index merged 0 = index l 0).
  { destruct groups as [|g groups]; [simpl in Hlo; lia|].
    rewrite Hmerged, (Hnth 0 g eq_refl). unfold index, slice. simpl.
    rewrite lookup_take_lt by lia. reflexivity. }
  destruct (Nat.ltb_spec 1 (length merged)).
  - destruct (IH merged w1) as (w' & Hrun'); [lia | lia |].
    exists w'. rewrite Hrun', Hfirst. reflexivity.
  - exists w1. rewrite Hfirst. reflexivity.
Qed.

(** X14. With an oracle that fails every call, [mergeReports] returns the
    first result of its list, for every fan-in of at least 2 and every
    non-empty list: every group degrades to its first member, round after
    round, and all the other results are dropped. *)
Theorem mergeReports_oracle_down_returns_first
    (parse : jsstring -> option value) (oracle : nat -> oracle_reply) (fan_in : nat)
    (jsonList : list value) (w : World) :
  (forall k, oracle k = Throws) ->
  2 <= fan_in ->
  1 <= length jsonList ->
  exists w',
    mergeReports parse oracle fan_in jsonList w = Some (index jsonList 0, w')
    /\ reports w' = reports w /\ profiles w' = profiles w.
Proof.
  intros Hdown Hfan Hne.
  destruct (mergeReports_fuel_down parse oracle fan_in Hdown Hfan
              (S (length jsonList)) jsonList w Hne) as (w' & Hrun); [lia|].
  exists w'. split; [exact Hrun|].
  apply (mergeReports_reports parse oracle fan_in jsonList w _ w' Hfan Hrun).
Qed.

Lemma mergeReports_oracle_down_returns_first_witness :
  exists w',
    mergeReports Json.parse oracle_down 5
      (map (fun n => VObj (fallback_result [] n)) (seq 1 7)) (world_of [])
    = Some (VObj (fallback_result [] 1), w').
Proof.
  destruct (mergeReports_oracle_down_returns_first Json.parse oracle_down 5
              (map (fun n => VObj (fallback_result [] n)) (seq 1 7)) (world_of []))
    as (w' & Hrun & _); [reflexivity | lia | simpl; lia |].
  exists w'. exact Hrun.
Defined.

(** X15. With the oracle down and the table up, a request whose credits
    are reserved is charged for all its records and answered with a final
    report that stands for the first batch alone: the fallback result for
    min(n, 50) records, with the all-zero classification, no highlight and
    an empty summary. *)
Theorem analyzev2_oracle_down_reports_first_batch
    (parse : jsstring -> option value) (oracle : nat -> oracle_reply)
    (insert_fails : nat -> bool) (db_row : nat -> report_row) (calls : ledger_calls)
    (cost : Z) (userId : string) (emails : list email) (w : World) (balance : Z) :
  (forall k, oracle k = Throws) ->
  (forall k, insert_fails k = false) ->
  ledger_answers calls = true ->
  userId <> EmptyString ->
  emails <> [] ->
  profiles w !! userId = Some balance ->
  (Z.of_nat (length emails) * cost <= balance)%Z ->
  exists ids fid w',
    analyzev2 parse oracle insert_fails db_row calls true cost userId emails w
    = Some (Ok (Some (balance - Z.of_nat (length emails) * cost)%Z) (length emails) ids fid
              (VObj (fallback_result [] (Nat.min (length emails) BATCH_SIZE))), w').
Proof.
  intros Hdown Hsave Hup Huser Hemails Hbal Hle.
  destruct (analyzev2_reserved parse oracle insert_fails db_row calls cost userId emails w
              balance Huser Hemails Hup Hbal Hle) as
    (batches & w2 & Hchunk & _ & Hne & _ & _ & _ & Hrun).
  cbv zeta in Hrun.
  assert (Hall : kept_results parse oracle insert_fails (oracle_calls w) (insert_calls w)
                   batches
                 = map (fun b : list email => VObj (fallback_result [] (length b))) batches).
  { unfold kept_results. rewrite saved_all by (intros; apply Hsave).
    assert (Himap : forall (f : nat -> list email -> value) l,
              (forall i x, f i x = VObj (fallback_result [] (length x))) ->
              imap f l = map (fun b : list email => VObj (fallback_result [] (length b))) l).
    { intros f l. revert f. induction l as [|x l IH]; intros f Hf; [reflexivity|].
      cbn [imap map]. rewrite Hf. f_equal. apply IH. intros i y. apply Hf. }
    apply Himap. intros i x. unfold batch_result. rewrite Hdown. reflexivity. }
  rewrite Hall in Hrun.
  destruct batches as [|b0 batches]; [simpl in Hne; lia|].
  cbn [map] in Hrun.
  destruct Hrun as (r & w3 & o & rounds & Hmerge & _ & _ & _ & Hrun).
  assert (Hfan : 2 <= MERGE_BATCH_SIZE) by (unfold MERGE_BATCH_SIZE; lia).
  destruct (mergeReports_fuel_down parse oracle MERGE_BATCH_SIZE Hdown Hfan
              (S (length (VObj (fallback_result [] (length b0))
                          :: map (fun b : list email => VObj (fallback_result [] (length b)))
                               batches)))
              (VObj (fallback_result [] (length b0))
               :: map (fun b : list email => VObj (fallback_result [] (length b))) batches)
              w2) as (w3' & Hmerge'); [simpl; lia | lia |].
  unfold mergeReports in Hmerge. rewrite Hmerge' in Hmerge.
  cbn [index lookup list_lookup default] in Hmerge. injection Hmerge as <- _.
  rewrite Hsave in Hrun.
  assert (Hb0 : length b0 = Nat.min (length emails) BATCH_SIZE).
  { destruct (chunkArray_spec emails BATCH_SIZE) as
      (bs & Hchunk' & _ & _ & _ & _ & _ & _ & Hnth); [unfold BATCH_SIZE; lia|].
    rewrite Hchunk in Hchunk'. injection Hchunk' as <-.
    rewrite (Hnth 0 b0 eq_refl), slice_length. unfold BATCH_SIZE. lia. }
  rewrite <- Hb0. eexists _, _, _. exact Hrun.
Qed.

(** 120 records with the oracle down: 120 credits are charged, and the final
    report counts 50 records. *)
Lemma analyzev2_oracle_down_reports_first_batch_witness :
  exists ids fid w',
    analyzev2 Json.parse oracle_down storage_up rows_from_100 by_procedure true 1 "u1"
      (replicate 120 an_email) (world_of [("u1"%string, 200%Z)])
    = Some (Ok (Some 80%Z) 120 ids fid (VObj (fallback_result [] 50)), w').
Proof.
  destruct (analyzev2_oracle_down_reports_first_batch Json.parse oracle_down storage_up
              rows_from_100 by_procedure 1 "u1" (replicate 120 an_email)
              (world_of [("u1"%string, 200%Z)]) 200)
    as (ids & fid & w' & Hrun);
    [reflexivity | reflexivity | reflexivity | discriminate | discriminate | reflexivity
     | vm_compute; discriminate |].
  exists ids, fid, w'. exact Hrun.
Defined.

(** ** Reading the reports back *)








Section Preserved.

Variable JSON_parse : jsstring -> option value.
Variable oracle : nat -> oracle_reply.
Variable P : value -> Prop.
Hypothesis P_repair : forall s n, P (VObj (safeParseJson JSON_parse s n)).



End Preserved.




(** ** Reading a message *)

(** X18. [parseHeaders] does not see the case of a header name, takes the
    first header of that name and no other, and answers [null] exactly when
    no header has it; and a subject or a sender read with a default is never
    the empty string. This holds for every behaviour of [toLowerCase]. *)
Theorem parseHeaders_first_match_any_case (toLowerCase : jsstring -> jsstring) :
  (forall headers name1 name2,
      toLowerCase name1 = toLowerCase name2 ->
      parseHeaders toLowerCase headers name1 = parseHeaders toLowerCase headers name2)
  /\ (forall pre h post name,
         Forall (fun h' => toLowerCase (header_name h') <> toLowerCase name) pre ->
         toLowerCase (header_name h) = toLowerCase name ->
         parseHeaders toLowerCase (pre ++ h :: post) name = Some (header_value h))
  /\ (forall headers name,
         parseHeaders toLowerCase headers name = None <->
         Forall (fun h' => toLowerCase (header_name h') <> toLowerCase name) headers)
  /\ (forall headers name dflt,
         dflt <> [] -> header_or toLowerCase headers name dflt <> []).
Proof.
  split; [|split; [|split]].
  - intros headers name1 name2 Hsame.
    induction headers as [|h rest IH]; simpl; [reflexivity|].
    rewrite Hsame, IH. reflexivity.
  - intros pre h post name Hpre Hh.
    induction Hpre as [|h' pre Hh' _ IH]; simpl.
    + rewrite (bool_decide_eq_true_2 _ Hh). reflexivity.
    + rewrite (bool_decide_eq_false_2 _ Hh'). exact IH.
  - intros headers name. induction headers as [|h rest IH]; simpl.
    + split; [constructor | reflexivity].
    + destruct (decide (toLowerCase (header_name h) = toLowerCase name)) as [Hh|Hh].
      * rewrite (bool_decide_eq_true_2 _ Hh). split; [discriminate|].
        intros Hall. inversion Hall; contradiction.
      * rewrite (bool_decide_eq_false_2 _ Hh), IH. split.
        -- intros Hrest. constructor; assumption.
        -- intros Hall. inversion Hall; assumption.
  - intros headers name dflt Hdflt. unfold header_or.
    destruct (parseHeaders toLowerCase headers name) as [[|c rest]|];
      [exact Hdflt | discriminate | exact Hdflt].
Qed.

Lemma parseHeaders_first_match_any_case_witness :
  parseHeaders lower_ascii
    [{| header_name := js "From"; header_value := js "a@b.c" |};
     {| header_name := js "SUBJECT"; header_value := js "first" |};
     {| header_name := js "subject"; header_value := js "second" |}] (js "Subject")
  = Some (js "first")
  /\ header_or lower_ascii [{| header_name := js "Subject"; header_value := [] |}]
       (js "Subject") (js "(no subject)") <> [].
Proof.
  destruct (parseHeaders_first_match_any_case lower_ascii) as (_ & Hfirst & _ & Hdflt).
  split.
  - apply (Hfirst [{| header_name := js "From"; header_value := js "a@b.c" |}]
             {| header_name := js "SUBJECT"; header_value := js "first" |}
             [{| header_name := js "subject"; header_value := js "second" |}]
             (js "Subject")).
    + constructor; [vm_compute; discriminate | constructor].
    + reflexivity.
  - apply Hdflt. discriminate.
Defined.

Lemma payload_induction (Q : payload -> Prop) :
  (forall mimeType data parts, Forall Q parts -> Q (Payload mimeType data parts)) ->
  forall p, Q p.
Proof.
  intros Hstep. fix IH 1. intros [mimeType data parts]. apply Hstep.
  induction parts as [|q parts IHparts]; constructor; [apply IH | exact IHparts].
Qed.

(** X19. [extractPlainTextFromPayload] only hands on what it decodes: on a
    missing payload, and on a tree of parts of which none carries data,
    however deep and whatever the types, the text is empty, for every
    behaviour of the decoder. *)
Theorem extractPlainText_needs_data
    (Buffer_from_base64 : jsstring -> jsstring) :
  extractPlainTextFromPayload Buffer_from_base64 None = []
  /\ forall p,
       has_any_data p = false ->
       extractPlainTextFromPayload Buffer_from_base64 (Some p) = [].
Proof.
  split; [reflexivity|]. simpl.
  induction p as [mimeType data parts IH] using payload_induction.
  simpl. destruct (body_data data); [discriminate|].
  intros Hparts. induction IH as [|q parts Hq _ IHparts]; simpl; [reflexivity|].
  simpl in Hparts. apply orb_false_iff in Hparts as [Hq' Hrest].
  rewrite (Hq Hq'), (IHparts Hrest). reflexivity.
Qed.

Lemma extractPlainText_needs_data_witness :
  extractPlainTextFromPayload (fun b64 => b64)
    (Some (Payload (js "multipart/mixed") None
             [Payload text_plain (Some []) [];
              Payload (js "multipart/alternative") None [Payload text_html None []]]))
  = [].
Proof.
  apply (proj2 (extractPlainText_needs_data (fun b64 => b64))). reflexivity.
Defined.
